(** * Change orchestration engine of the CI/CD MongoDB API

    A shallow embedding of [src/services/changes.service.ts],
    [src/services/mongo.service.ts], [src/lib/ids.ts] and the request
    validator [lib/validator], together with an in-memory model of the
    MongoDB driver they call, and the properties of the change executor,
    the batch orchestrator, the revert engine, the audit listing and the
    connection manager.

    Conventions of the model.
    - [async] functions are computations in the monad [M]: explicit state
      passing over a [World], with JavaScript exceptions as [Throw].
    - The driver is modelled in memory.  Every call that goes to a target
      server (connect, listCollections, createCollection, indexes,
      createIndex, dropIndex, countDocuments on a target, dropCollection)
      first consults the fault oracle [faults]: the head entry, when present,
      either lets the call through or makes it throw the given error.  Calls
      on the audit collection handle ([insertOne], [find], [updateOne],
      [countDocuments]) are modelled as reliable.
    - The audit collection is an ordinary collection of the server the
      client is connected to, so a change request can name it.
    - [trace] is ghost state: it records connection attempts and the entry of
      [applyChange] and [revertChange], and is read by no operation. *)

From stdpp Require Import gmap strings list fin_maps sorting.
From Stdlib Require Import ZArith Lia Ascii.


(** ** JavaScript values *)

(** A thrown [Error] object. *)
Record JsError := mkError { err_name : string; err_message : string }.

(** [String(err?.message || err)]: the message when it is non-empty, else
    [Error.prototype.toString] of an error with empty message, its name. *)
Definition stringify_cause (e : JsError) : string :=
  if decide (err_message e = "") then err_name e else err_message e.

(** [o || d] on an optional string: [undefined] and [""] are falsy. *)
Definition str_or (o : option string) (d : string) : string :=
  match o with
  | Some s => if decide (s = "") then d else s
  | None => d
  end.

(** The truthy content of an optional string. *)
Definition truthy (o : option string) : option string :=
  match o with
  | Some s => if decide (s = "") then None else Some s
  | None => None
  end.

(** [xs.join(sep)] *)
Fixpoint join (sep : string) (xs : list string) : string :=
  match xs with
  | [] => ""
  | [x] => x
  | x :: rest => x +:+ sep +:+ join sep rest
  end.

(** Parts of the JavaScript runtime that are taken as given: the regular
    expression engine ([None] is the [SyntaxError] of [new RegExp]), the
    date parser ([None] is an invalid date) and the UTC calendar stamp of
    [newChangeId]. *)
Record JsRuntime := mkRuntime {
  RegExp_test : string → string → option bool;
  Date_parse : string → option Z;
  Date_yyyymmdd : Z → string
}.

(** ** Data model (lib/validator, types/change) *)

Record Target := mkTarget { uri : string; database : string }.

(** A plain JSON record that the service only passes through. *)
Definition JsonRecord := list (string * string).

(** Index specification: the entries of the [spec] object in
    [Object.keys] order, each a field with its direction. *)
Definition Spec := list (string * Z).

(** A value of [partialFilterExpression]: a scalar, or an object given by
    its keys. *)
Inductive PfeValue := PfeScalar | PfeObject (keys : list string).

Record IndexOptions := mkIndexOptions {
  name : option string;
  unique : option bool;
  partialFilterExpression : option (list (string * PfeValue))
}.

Inductive Operation :=
| CreateCollection (collection : string) (options : option JsonRecord)
| CreateIndex (collection : string) (spec : Spec) (options : option IndexOptions)
| OtherOperation (type : string).

Record ChangeRequest := mkRequest {
  changeId : option string;
  target : Target;
  operation : Operation;
  metadata : option JsonRecord
}.

Inductive Status := applied | skipped | failed | reverted.

Inductive RevertPlan :=
| dropCollection_plan (collection : string) (requiresEmpty : bool)
| dropIndex_plan (collection : string) (name : string).

(** The object returned by [applyChange].  [cr_revertPlan] is [None] when
    the object has no [revertPlan] property, [Some None] when the property
    holds [null]. *)
Record ChangeResult := mkResult {
  cr_changeId : string;
  cr_status : Status;
  cr_message : string;
  cr_revertPlan : option (option RevertPlan);
  cr_durationMs : Z
}.

(** A document of the audit collection. *)
Record AuditRecord := mkAudit {
  ar_id : nat;
  ar_changeId : string;
  ar_target : Target;
  ar_operation : Operation;
  ar_metadata : JsonRecord;
  ar_status : Status;
  ar_message : string;
  ar_revertPlan : option (option RevertPlan);
  ar_createdAt : Z;
  ar_revertedAt : option Z;
  ar_revertMessage : option string
}.

#[global] Instance Target_eq_dec : EqDecision Target.
Proof. solve_decision. Defined.
#[global] Instance PfeValue_eq_dec : EqDecision PfeValue.
Proof. solve_decision. Defined.
#[global] Instance IndexOptions_eq_dec : EqDecision IndexOptions.
Proof. solve_decision. Defined.
#[global] Instance Operation_eq_dec : EqDecision Operation.
Proof. solve_decision. Defined.
#[global] Instance Status_eq_dec : EqDecision Status.
Proof. solve_decision. Defined.
#[global] Instance RevertPlan_eq_dec : EqDecision RevertPlan.
Proof. solve_decision. Defined.

(** ** The world: process state and the servers *)

Record Index := mkIndex { ix_name : string; ix_key : Spec }.

Inductive Doc :=
| AuditDoc (r : AuditRecord)
| OtherDoc (id : nat).

Record Collection := mkCollection { docs : list Doc; indexes : list Index }.

(** A collection is addressed by connection string, database and name. *)
Definition CollKey : Type := string * string * string.

Record MongoClient := mkClient { client_uri : string }.

Inductive Event :=
| EvConnect (uri : string)
| EvApply (req : ChangeRequest) (dryRun : bool)
| EvRevert (changeId : string) (uri : string) (database : option string).

Record World := mkWorld {
  env_ALLOW_TARGET_URI_REGEX : option string;
  env_AUDIT_DB : option string;
  clientCache : gmap string MongoClient;
  colls : gmap CollKey Collection;
  clock : Z;
  entropy : list string;
  nextOid : nat;
  faults : list (option JsError);
  trace : list Event
}.

Definition set_clientCache (f : gmap string MongoClient → gmap string MongoClient) (w : World) : World :=
  mkWorld (env_ALLOW_TARGET_URI_REGEX w) (env_AUDIT_DB w) (f (clientCache w)) (colls w)
          (clock w) (entropy w) (nextOid w) (faults w) (trace w).
Definition set_colls (f : gmap CollKey Collection → gmap CollKey Collection) (w : World) : World :=
  mkWorld (env_ALLOW_TARGET_URI_REGEX w) (env_AUDIT_DB w) (clientCache w) (f (colls w))
          (clock w) (entropy w) (nextOid w) (faults w) (trace w).
Definition set_clock (f : Z → Z) (w : World) : World :=
  mkWorld (env_ALLOW_TARGET_URI_REGEX w) (env_AUDIT_DB w) (clientCache w) (colls w)
          (f (clock w)) (entropy w) (nextOid w) (faults w) (trace w).
Definition set_entropy (f : list string → list string) (w : World) : World :=
  mkWorld (env_ALLOW_TARGET_URI_REGEX w) (env_AUDIT_DB w) (clientCache w) (colls w)
          (clock w) (f (entropy w)) (nextOid w) (faults w) (trace w).
Definition set_nextOid (f : nat → nat) (w : World) : World :=
  mkWorld (env_ALLOW_TARGET_URI_REGEX w) (env_AUDIT_DB w) (clientCache w) (colls w)
          (clock w) (entropy w) (f (nextOid w)) (faults w) (trace w).
Definition set_faults (f : list (option JsError) → list (option JsError)) (w : World) : World :=
  mkWorld (env_ALLOW_TARGET_URI_REGEX w) (env_AUDIT_DB w) (clientCache w) (colls w)
          (clock w) (entropy w) (nextOid w) (f (faults w)) (trace w).
Definition set_trace (f : list Event → list Event) (w : World) : World :=
  mkWorld (env_ALLOW_TARGET_URI_REGEX w) (env_AUDIT_DB w) (clientCache w) (colls w)
          (clock w) (entropy w) (nextOid w) (faults w) (f (trace w)).
Definition set_allow (o : option string) (w : World) : World :=
  mkWorld o (env_AUDIT_DB w) (clientCache w) (colls w)
          (clock w) (entropy w) (nextOid w) (faults w) (trace w).

(** ** The monad of asynchronous, throwing computations *)

Inductive Res (A : Type) :=
| Ok (a : A)
| Throw (e : JsError).
Arguments Ok {A} a.
Arguments Throw {A} e.

Definition M (A : Type) : Type := World → Res A * World.

Definition ret {A} (a : A) : M A := fun w => (Ok a, w).
Definition throw {A} (e : JsError) : M A := fun w => (Throw e, w).
Definition bind {A B} (m : M A) (k : A → M B) : M B :=
  fun w => match m w with
           | (Ok a, w') => k a w'
           | (Throw e, w') => (Throw e, w')
           end.
(** [try { m } catch (err) { h err }] *)
Definition try_catch {A} (m : M A) (h : JsError → M A) : M A :=
  fun w => match m w with
           | (Ok a, w') => (Ok a, w')
           | (Throw e, w') => h e w'
           end.
Definition gets {A} (f : World → A) : M A := fun w => (Ok (f w), w).
Definition modify (f : World → World) : M unit := fun w => (Ok tt, f w).

Declare Scope async_scope.
Delimit Scope async_scope with async.
Notation "x <- m ;; k" := (bind m (fun x => k))
  (at level 100, m at next level, right associativity) : async_scope.
Notation "m ;;; k" := (bind m (fun _ => k))
  (at level 100, right associativity) : async_scope.
Open Scope async_scope.

(** [new Error(msg)] *)
Definition Error (msg : string) : JsError := mkError "Error" msg.
Definition MongoServerError (msg : string) : JsError := mkError "MongoServerError" msg.

(** A call that goes over the wire: the fault oracle may make it throw. *)
Definition driver {A} (op : M A) : M A :=
  fun w => match faults w with
           | [] => op w
           | None :: fs => op (set_faults (fun _ => fs) w)
           | Some e :: fs => (Throw e, set_faults (fun _ => fs) w)
           end.

(** [Date.now()] and [new Date()]: read the clock, which then advances. *)
Definition Date_now : M Z :=
  fun w => (Ok (clock w), set_clock (fun t => (t + 1)%Z) w).

Definition log (e : Event) : M unit := modify (set_trace (fun t => t ++ [e])).

(** ** Request validator (lib/validator) *)

Definition PartialFilterAllowedOps : list string :=
  ["$exists"; "$eq"; "$in"; "$gt"; "$gte"; "$lt"; "$lte"; "$ne"].

(** The [superRefine] of [CreateIndexSchema]: every object-shaped value uses
    allowed operators only. *)
Definition pfe_isAllowed (pfe : list (string * PfeValue)) : bool :=
  forallb (fun kv => match snd kv with
                     | PfeScalar => true
                     | PfeObject keys =>
                         forallb (fun k => bool_decide (k ∈ PartialFilterAllowedOps)) keys
                     end) pfe.

Definition min1 (path : string) (s : string) : list string :=
  if decide (s = "") then [path] else [].

Definition validate_options (o : IndexOptions) : list string :=
  match name o with
  | Some n => min1 "operation.options.name" n
  | None => ["operation.options.name"]
  end.

Definition validate_operation (op : Operation) : list string :=
  match op with
  | CreateCollection c _ => min1 "operation.collection" c
  | CreateIndex c spec o =>
      min1 "operation.collection" c
      ++ (if decide (spec = []) then ["spec required"] else [])
      ++ from_option validate_options [] o
      ++ (match o ≫= partialFilterExpression with
          | Some pfe => if pfe_isAllowed pfe then []
                        else ["partialFilterExpression contains disallowed operators"]
          | None => []
          end)
  | OtherOperation _ => ["operation.type"]
  end.

(** The issues the schema reports, all of them. *)
Definition validate (req : ChangeRequest) : list string :=
  from_option (min1 "changeId") [] (changeId req)
  ++ min1 "target.uri" (uri (target req))
  ++ min1 "target.database" (database (target req))
  ++ validate_operation (operation req).

(** [ChangeRequestSchema.parse(req)] *)
Definition parse (req : ChangeRequest) : M ChangeRequest :=
  match validate req with
  | [] => ret req
  | issues => throw (mkError "ZodError" (join "," issues))
  end.

(** ** Driver model *)

Definition idIndex : Index := mkIndex "_id_" [("_id", 1%Z)].
Definition newCollection : Collection := mkCollection [] [idIndex].

(** [client.db(db).collection(coll)] *)
Definition coll_key (c : MongoClient) (db coll : string) : CollKey :=
  (client_uri c, db, coll).

Definition docs_at (k : CollKey) (w : World) : list Doc :=
  match colls w !! k with
  | Some c => docs c
  | None => []
  end.

Definition named (n : string) (i : Index) : bool := bool_decide (ix_name i = n).

(** [new MongoClient(uri).connect()] *)
Definition connect (u : string) : M MongoClient :=
  log (EvConnect u);;; driver (ret (mkClient u)).

(** [db.listCollections({ name }).toArray()] *)
Definition listCollections (k : CollKey) : M (list string) :=
  driver (gets (fun w => match colls w !! k with
                         | Some _ => [snd k]
                         | None => []
                         end)).

(** [db.createCollection(name, options)] *)
Definition createCollection (k : CollKey) (options : JsonRecord) : M unit :=
  driver (fun w => match colls w !! k with
                   | Some _ => (Throw (MongoServerError "Collection already exists."), w)
                   | None => (Ok tt, set_colls (insert k newCollection) w)
                   end).

(** [coll.indexes()] *)
Definition coll_indexes (k : CollKey) : M (list Index) :=
  driver (fun w => match colls w !! k with
                   | Some c => (Ok (indexes c), w)
                   | None => (Throw (MongoServerError "ns does not exist"), w)
                   end).

(** [coll.createIndex(spec, { ...options, name })]: creates the collection
    when it is missing; an index of that name with other keys, or of those
    keys with another name, is a conflict. *)
Definition createIndex (k : CollKey) (spec : Spec) (n : string) : M string :=
  driver (fun w =>
    let c := default newCollection (colls w !! k) in
    match find (named n) (indexes c) with
    | Some i =>
        if decide (ix_key i = spec)
        then (Ok n, set_colls (insert k c) w)
        else (Throw (MongoServerError "An existing index has the same name as the requested index."), w)
    | None =>
        match find (fun i => bool_decide (ix_key i = spec)) (indexes c) with
        | Some _ => (Throw (MongoServerError "Index already exists with a different name."), w)
        | None => (Ok n, set_colls (insert k (mkCollection (docs c) (indexes c ++ [mkIndex n spec]))) w)
        end
    end).

(** [coll.dropIndex(name)] *)
Definition dropIndex (k : CollKey) (n : string) : M unit :=
  driver (fun w =>
    match colls w !! k with
    | None => (Throw (MongoServerError "ns not found"), w)
    | Some c =>
        if decide (n = "_id_") then (Throw (MongoServerError "cannot drop _id index"), w)
        else match find (named n) (indexes c) with
             | None => (Throw (MongoServerError "index not found with name"), w)
             | Some _ =>
                 (Ok tt, set_colls (insert k (mkCollection (docs c)
                                      (filter (fun i => ix_name i ≠ n) (indexes c)))) w)
             end
    end).

(** [coll.countDocuments()] on a target collection *)
Definition countDocuments (k : CollKey) : M nat :=
  driver (gets (fun w => length (docs_at k w))).

(** [db.dropCollection(name)] *)
Definition dropCollection (k : CollKey) : M unit :=
  driver (fun w => match colls w !! k with
                   | None => (Throw (MongoServerError "ns not found"), w)
                   | Some _ => (Ok tt, set_colls (delete k) w)
                   end).

(** ** Audit collection *)

Definition AUDIT_COLLECTION : string := "cicd_changes_audit".

(** The collection that [auditDb(client).collection(AUDIT_COLLECTION)]
    names, with [process.env.AUDIT_DB || "admin"] read from the world. *)
Definition audit_key (c : MongoClient) (w : World) : CollKey :=
  coll_key c (str_or (env_AUDIT_DB w) "admin") AUDIT_COLLECTION.

Definition auditCollection (c : MongoClient) : M CollKey := gets (audit_key c).

Definition audit_of (d : Doc) : option AuditRecord :=
  match d with
  | AuditDoc r => Some r
  | OtherDoc _ => None
  end.

(** The audit records held by a collection, in insertion order. *)
Definition audit_records (k : CollKey) (w : World) : list AuditRecord :=
  omap audit_of (docs_at k w).

(** [audit.insertOne(doc)]: the server assigns [_id]; a missing collection
    is created by the insert. *)
Definition insertOne (k : CollKey) (mk : nat → AuditRecord) : M unit :=
  fun w =>
    let c := default newCollection (colls w !! k) in
    (Ok tt,
     set_nextOid S
       (set_colls (insert k (mkCollection (docs c ++ [AuditDoc (mk (nextOid w))]) (indexes c))) w)).

(** [sort({ createdAt: -1 })] *)
Definition newer_eq (a b : AuditRecord) : Prop := (ar_createdAt b ≤ ar_createdAt a)%Z.
#[global] Instance newer_eq_dec : RelDecision newer_eq.
Proof. intros a b. unfold newer_eq. apply _. Defined.

Definition newest_first (rs : list AuditRecord) : list AuditRecord :=
  merge_sort newer_eq rs.

(** [audit.find({ changeId, "target.uri": uri }).sort({ createdAt: -1 }).limit(1).next()] *)
Definition find_latest (k : CollKey) (cid u : string) : M (option AuditRecord) :=
  gets (fun w =>
    head (newest_first
            (filter (fun r => ar_changeId r = cid ∧ uri (ar_target r) = u)
                    (audit_records k w)))).

Definition mark_reverted (t : Z) (msg : string) (r : AuditRecord) : AuditRecord :=
  mkAudit (ar_id r) (ar_changeId r) (ar_target r) (ar_operation r) (ar_metadata r)
          reverted (ar_message r) (ar_revertPlan r) (ar_createdAt r) (Some t) (Some msg).

(** Apply [f] to the first audit record whose [_id] is [id]. *)
Fixpoint update_first (id : nat) (f : AuditRecord → AuditRecord) (ds : list Doc) : list Doc :=
  match ds with
  | [] => []
  | AuditDoc r :: rest =>
      if decide (ar_id r = id) then AuditDoc (f r) :: rest
      else AuditDoc r :: update_first id f rest
  | d :: rest => d :: update_first id f rest
  end.

(** [audit.updateOne({ _id }, { $set: { revertedAt, revertMessage, status: "reverted" } })] *)
Definition updateOne (k : CollKey) (id : nat) (f : AuditRecord → AuditRecord) : M unit :=
  modify (set_colls (fun m =>
    match m !! k with
    | Some c => <[k := mkCollection (update_first id f (docs c)) (indexes c)]> m
    | None => m
    end)).

(** ** Results of the service operations *)

Record ApplyOptions := mkApplyOptions { ao_dryRun : option bool }.
Record BatchOptions := mkBatchOptions { bo_stopOnError : option bool; bo_dryRun : option bool }.

Inductive BatchStatus := ok | rolled_back.

Record BatchResult := mkBatch {
  br_status : BatchStatus;
  br_failedAt : option nat;
  br_results : list ChangeResult
}.

(** An element of the [applied] array of [applyBatch]. *)
Record AppliedEntry := mkApplied { ap_changeId : string; ap_target : Target }.

Record RevertContext := mkCtx { ctx_uri : string; ctx_database : option string }.

Record RevertResult := mkRevert {
  rr_changeId : string;
  rr_status : Status;
  rr_message : string;
  rr_change : option ChangeRequest
}.

Record ListQuery := mkQuery {
  q_status : option string;
  q_since : option string;
  q_limit : option Z;
  q_skip : option Z
}.

Record ListResult := mkList { total : nat; items : list AuditRecord }.

(** The [filter.status] clause of [listChanges]. *)
Inductive StatusFilter :=
| status_in (arr : list string)
| status_ne (s : string).

Record AuditFilter := mkFilter {
  f_uri : string;
  f_status : StatusFilter;
  f_createdAt_gte : option Z
}.

Definition status_name (s : Status) : string :=
  match s with
  | applied => "applied"
  | skipped => "skipped"
  | failed => "failed"
  | reverted => "reverted"
  end.

(** Whether a record satisfies the query document. *)
Definition matches (f : AuditFilter) (r : AuditRecord) : bool :=
  bool_decide (uri (ar_target r) = f_uri f)
  && match f_status f with
     | status_in arr => bool_decide (status_name (ar_status r) ∈ arr)
     | status_ne s => negb (bool_decide (status_name (ar_status r) = s))
     end
  && match f_createdAt_gte f with
     | Some d => bool_decide (d ≤ ar_createdAt r)%Z
     | None => true
     end.

(** ** String helpers of [listChanges] *)

Definition is_space (c : ascii) : bool :=
  let n := nat_of_ascii c in
  bool_decide (n = 32 ∨ (9 ≤ n ∧ n ≤ 13)).

Fixpoint trim_start (s : string) : string :=
  match s with
  | String c rest => if is_space c then trim_start rest else s
  | EmptyString => EmptyString
  end.

(** [s.trim()], for the ASCII white space characters. *)
Definition trim (s : string) : string :=
  String.rev (trim_start (String.rev (trim_start s))).

(** [s.split(",")]: [cur] holds the piece being read, reversed. *)
Fixpoint split_comma_go (cur : string) (s : string) : list string :=
  match s with
  | EmptyString => [String.rev cur]
  | String c rest =>
      if decide (c = ","%char) then String.rev cur :: split_comma_go EmptyString rest
      else split_comma_go (String c cur) rest
  end.

Definition split_comma (s : string) : list string := split_comma_go EmptyString s.

(** [q.status.split(",").map(s => s.trim()).filter(Boolean)] *)
Definition status_list (s : string) : list string :=
  filter (fun x => x ≠ "") (map trim (split_comma s)).

(** The server's default size of the first batch of a [find]. *)
Definition FIRST_BATCH : nat := 101.

(** [cursor.limit(n).toArray()]: [0] is no limit; a negative limit asks for
    a single batch of at most [|n|] documents. *)
Definition cursor_limit {A} (n : Z) (l : list A) : list A :=
  if decide (n = 0)%Z then l
  else if decide (0 < n)%Z then take (Z.to_nat n) l
  else take (Nat.min (Z.to_nat (- n)) FIRST_BATCH) l.

Section Service.

Variable rt : JsRuntime.

(** ** lib/ids.ts *)

(** [crypto.randomBytes(4).toString("hex")] *)
Definition randomHex : M string :=
  fun w => (Ok (hd "00000000" (entropy w)), set_entropy tail w).

Definition newChangeId : M string :=
  d <- Date_now;;
  rnd <- randomHex;;
  ret ("chg-" +:+ Date_yyyymmdd rt d +:+ "-" +:+ rnd).

(** ** services/mongo.service.ts *)

Definition NOT_ALLOWED : JsError :=
  Error "The provided MongoDB URI does not match ALLOW_TARGET_URI_REGEX.".

(** Lines 7 to 10 of [getClient]: the allow-pattern gate. *)
Definition check_allow (u : string) : M unit :=
  allow <- gets env_ALLOW_TARGET_URI_REGEX;;
  match truthy allow with
  | Some pattern =>
      match RegExp_test rt pattern u with
      | None => throw (mkError "SyntaxError" "Invalid regular expression")
      | Some true => ret tt
      | Some false => throw NOT_ALLOWED
      end
  | None => ret tt
  end.

(** Lines 11 to 17 of [getClient]: the cache, then the connection. *)
Definition cached_or_connect (u : string) : M MongoClient :=
  cached <- gets (fun w => clientCache w !! u);;
  match cached with
  | Some c => ret c
  | None =>
      c <- connect u;;
      modify (set_clientCache (insert u c));;;
      ret c
  end.

Definition getClient (u : string) : M MongoClient :=
  check_allow u;;; cached_or_connect u.

(** ** services/changes.service.ts *)

(** The effective index name,
    [options?.name || "idx_" + Object.keys(spec).join("_")]. *)
Definition indexName (s : Spec) (o : option IndexOptions) : string :=
  str_or (o ≫= name) ("idx_" +:+ join "_" (map fst s)).

(** The local variables [status], [message] and [revertPlan] of
    [applyChange]. *)
Record Outcome := mkOutcome {
  o_status : Status;
  o_message : string;
  o_revertPlan : option RevertPlan
}.

(** The operation dispatch inside the [try] of [applyChange], lines 36 to
    71: the values of the three variables when it completes. *)
Definition perform (client : MongoClient) (db : string) (op : Operation) (dryRun : bool)
  : M Outcome :=
  match op with
  | CreateCollection n o =>
      found <- listCollections (coll_key client db n);;
      if bool_decide (0 < length found) then
        ret (mkOutcome skipped "Change skipped because the collection already exists."
               (Some (dropCollection_plan n true)))
      else
        (if dryRun then ret tt
         else createCollection (coll_key client db n) (default [] o));;;
        ret (mkOutcome applied "Change applied successfully." (Some (dropCollection_plan n true)))
  | CreateIndex c s o =>
      let n := indexName s o in
      ixs <- coll_indexes (coll_key client db c);;
      match find (named n) ixs with
      | Some sameName =>
          if decide (ix_key sameName = s) then
            ret (mkOutcome skipped
                   "Change skipped because an index with the same name and keys already exists."
                   (Some (dropIndex_plan c n)))
          else throw (Error "An index with this name already exists but uses different keys.")
      | None =>
          (if dryRun then ret tt
           else createIndex (coll_key client db c) s n;;; ret tt);;;
          ret (mkOutcome applied "Change applied successfully." (Some (dropIndex_plan c n)))
      end
  | OtherOperation _ => throw (Error "Unsupported operation type for applyChange.")
  end.

(** The [try]/[catch] of [applyChange], lines 35 to 102. *)
Definition execute (parsed : ChangeRequest) (cid : string) (client : MongoClient)
    (audit : CollKey) (dryRun : bool) (t0 : Z) : M ChangeResult :=
  try_catch
    (o <- perform client (database (target parsed)) (operation parsed) dryRun;;
     (if dryRun then ret tt
      else
        now <- Date_now;;
        insertOne audit (fun id =>
          mkAudit id cid (target parsed) (operation parsed) (default [] (metadata parsed))
                  (o_status o) (o_message o) (Some (o_revertPlan o)) now None None));;;
     t1 <- Date_now;;
     ret (mkResult cid (o_status o) (o_message o) (Some (o_revertPlan o)) (t1 - t0)))
    (fun err =>
       let errorMessage := stringify_cause err in
       (if dryRun then ret tt
        else
          now <- Date_now;;
          insertOne audit (fun id =>
            mkAudit id cid (target parsed) (operation parsed) (default [] (metadata parsed))
                    failed errorMessage None now None None));;;
       t1 <- Date_now;;
       ret (mkResult cid failed errorMessage None (t1 - t0))).

Definition applyChange (req : ChangeRequest) (opts : ApplyOptions) : M ChangeResult :=
  log (EvApply req (default false (ao_dryRun opts)));;;
  t0 <- Date_now;;
  let dryRun := default false (ao_dryRun opts) in
  parsed <- parse req;;
  cid <- match truthy (changeId parsed) with
         | Some s => ret s
         | None => newChangeId
         end;;
  client <- getClient (uri (target parsed));;
  audit <- auditCollection client;;
  execute parsed cid client audit dryRun t0.

Definition changeRecord (rec : AuditRecord) : ChangeRequest :=
  mkRequest (Some (ar_changeId rec)) (ar_target rec) (ar_operation rec) (Some (ar_metadata rec)).

(** Lines 143 to 177 of [revertChange]: undo the change that the audit
    record [rec] describes. *)
Definition revert_record (client : MongoClient) (audit : CollKey) (cid : string)
    (ctx : RevertContext) (rec : AuditRecord) : M RevertResult :=
  let targetDb := match truthy (ctx_database ctx) with
                  | Some d => d
                  | None => database (ar_target rec)
                  end in
  match ar_operation rec with
  | CreateIndex c s o =>
      let n := indexName s o in
      try_catch
        (dropIndex (coll_key client targetDb c) n;;;
         now <- Date_now;;
         updateOne audit (ar_id rec) (mark_reverted now "Index dropped successfully.");;;
         ret (mkRevert cid reverted "Index dropped successfully." (Some (changeRecord rec))))
        (fun err =>
           ret (mkRevert cid failed ("Failed to drop index: " +:+ stringify_cause err)
                         (Some (changeRecord rec))))
  | CreateCollection c _ =>
      count <- countDocuments (coll_key client targetDb c);;
      if bool_decide (0 < count) then
        ret (mkRevert cid failed "Cannot drop the collection because it is not empty."
                      (Some (changeRecord rec)))
      else
        try_catch
          (dropCollection (coll_key client targetDb c);;;
           now <- Date_now;;
           updateOne audit (ar_id rec) (mark_reverted now "Collection dropped successfully.");;;
           ret (mkRevert cid reverted "Collection dropped successfully."
                         (Some (changeRecord rec))))
          (fun err =>
             ret (mkRevert cid failed
                           ("Failed to drop collection: " +:+ stringify_cause err)
                           (Some (changeRecord rec))))
  | OtherOperation _ =>
      ret (mkRevert cid failed "Unsupported operation type for revertChange."
                    (Some (changeRecord rec)))
  end.

Definition revertChange (cid : string) (ctx : RevertContext) : M RevertResult :=
  log (EvRevert cid (ctx_uri ctx) (ctx_database ctx));;;
  client <- getClient (ctx_uri ctx);;
  audit <- auditCollection client;;
  found <- find_latest audit cid (ctx_uri ctx);;
  match found with
  | None =>
      ret (mkRevert cid failed "No audit entry was found for the requested changeId." None)
  | Some rec => revert_record client audit cid ctx rec
  end.

(** The compensation loop of [applyBatch], lines 119 to 122: [todo] is the
    [applied] array read from its last element down, every failure
    swallowed. *)
Fixpoint rollback (todo : list AppliedEntry) : M unit :=
  match todo with
  | [] => ret tt
  | a :: rest =>
      try_catch
        (revertChange (ap_changeId a)
           (mkCtx (uri (ap_target a)) (Some (database (ap_target a))));;; ret tt)
        (fun _ => ret tt);;;
      rollback rest
  end.

(** Lines 113 to 115 of [applyBatch]: give the request a [changeId] when it
    has none, then apply it. *)
Definition attempt (dryRun : bool) (ci : ChangeRequest) : M ChangeResult :=
  c <- match truthy (changeId ci) with
       | Some _ => ret ci
       | None =>
           fresh <- newChangeId;;
           ret (mkRequest (Some fresh) (target ci) (operation ci) (metadata ci))
       end;;
  applyChange c (mkApplyOptions (Some dryRun)).

(** The [for] loop of [applyBatch] from index [i] on. *)
Fixpoint applyBatch_loop (stopOnError dryRun : bool) (changes : list ChangeRequest) (i : nat)
    (results : list ChangeResult) (done : list AppliedEntry) : M BatchResult :=
  match changes with
  | [] => ret (mkBatch ok None results)
  | ci :: rest =>
      res <- attempt dryRun ci;;
      let results := results ++ [res] in
      if bool_decide (cr_status res = failed) && stopOnError && negb dryRun then
        rollback (rev done);;;
        ret (mkBatch rolled_back (Some i) results)
      else
        let done := if bool_decide (cr_status res = applied) && negb dryRun
                    then done ++ [mkApplied (cr_changeId res) (target ci)]
                    else done in
        applyBatch_loop stopOnError dryRun rest (S i) results done
  end.

Definition applyBatch (changes : list ChangeRequest) (opts : BatchOptions) : M BatchResult :=
  let stopOnError := negb (bool_decide (bo_stopOnError opts = Some false)) in
  let dryRun := default false (bo_dryRun opts) in
  applyBatch_loop stopOnError dryRun changes 0 [] [].

Definition listChanges (u : string) (q : ListQuery) : M ListResult :=
  client <- getClient u;;
  audit <- auditCollection client;;
  let st := match truthy (q_status q) with
            | Some s => status_in (status_list s)
            | None => status_ne "reverted"
            end in
  let since := truthy (q_since q) ≫= Date_parse rt in
  let filter := mkFilter u st since in
  let limit := Z.min (match q_limit q with
                      | Some n => if decide (n = 0)%Z then 100%Z else n
                      | None => 100%Z
                      end) 500 in
  let skip := default 0%Z (q_skip q) in
  all <- gets (fun w => List.filter (matches filter) (audit_records audit w));;
  (if decide (skip < 0)%Z
   then throw (MongoServerError "Skip value must be non-negative")
   else ret tt);;;
  ret (mkList (length all) (cursor_limit limit (drop (Z.to_nat skip) (newest_first all)))).

Definition getChange (cid : string) (u : string) : M (option AuditRecord) :=
  client <- getClient u;;
  audit <- auditCollection client;;
  find_latest audit cid u.

(** ** Vocabulary of the properties *)

(** The allow-pattern lets [u] through. *)
Definition allowed (w : World) (u : string) : Prop :=
  match truthy (env_ALLOW_TARGET_URI_REGEX w) with
  | Some pattern => RegExp_test rt pattern u = Some true
  | None => True
  end.

(** The requests of a batch attempted one after the other, with no stop. *)
Fixpoint attempts (dryRun : bool) (cs : list ChangeRequest) : M (list ChangeResult) :=
  match cs with
  | [] => ret []
  | c :: rest =>
      r <- attempt dryRun c;;
      rs <- attempts dryRun rest;;
      ret (r :: rs)
  end.

End Service.

(** The entries that [applyBatch] keeps for compensation: one for each
    request whose result is [applied], in application order. *)
Fixpoint applied_entries (cs : list ChangeRequest) (rs : list ChangeResult) : list AppliedEntry :=
  match cs, rs with
  | c :: cs', r :: rs' =>
      if bool_decide (cr_status r = applied)
      then mkApplied (cr_changeId r) (target c) :: applied_entries cs' rs'
      else applied_entries cs' rs'
  | _, _ => []
  end.

(** The call of the revert engine that compensates an entry. *)
Definition revert_event (a : AppliedEntry) : Event :=
  EvRevert (ap_changeId a) (uri (ap_target a)) (Some (database (ap_target a))).

Definition is_revert (e : Event) : bool :=
  match e with
  | EvRevert _ _ _ => true
  | _ => false
  end.

(** The calls of the revert engine so far, oldest first. *)
Definition revert_calls (w : World) : list Event := List.filter is_revert (trace w).

(** The handle that [getClient] returns for [u] when it returns one. *)
Definition client_for (w : World) (u : string) : MongoClient :=
  default (mkClient u) (clientCache w !! u).

(** [quiet m]: when the fault oracle is empty before [m], it is after. *)
Definition quiet {A} (m : M A) : Prop :=
  ∀ w, faults w = [] → faults (snd (m w)) = [].

(** [f] reads nothing that a server call, the clock or the random source
    changes. *)
Definition server_blind {X} (f : World → X) : Prop :=
  (∀ g w, f (set_colls g w) = f w)
  ∧ (∀ g w, f (set_faults g w) = f w)
  ∧ (∀ g w, f (set_clock g w) = f w)
  ∧ (∀ g w, f (set_nextOid g w) = f w)
  ∧ (∀ g w, f (set_entropy g w) = f w).

(** The indexes of a collection, when it exists. *)
Definition indexes_at (k : CollKey) (w : World) : option (list Index) :=
  indexes <$> colls w !! k.

(** The string holds no comma. *)
Fixpoint comma_free (s : string) : bool :=
  match s with
  | EmptyString => true
  | String c rest => negb (bool_decide (c = ","%char)) && comma_free rest
  end.

(** The query of [listChanges] with another page. *)
Definition with_page (q : ListQuery) (limit skip : Z) : ListQuery :=
  mkQuery (q_status q) (q_since q) (Some limit) (Some skip).

(** [keeps f m]: running [m] leaves the part [f] of the world as it was. *)
Definition keeps {A X} (f : World → X) (m : M A) : Prop :=
  ∀ w, f (snd (m w)) = f w.

(** Insertion sort of field names in code-unit order. *)
Fixpoint insert_sorted (x : string) (l : list string) : list string :=
  match l with
  | [] => [x]
  | y :: rest => if String.leb x y then x :: l else y :: insert_sorted x rest
  end.

Definition sort_strings (l : list string) : list string := foldr insert_sorted [] l.

(** The index name in the words of the specification: the field names in
    sorted order. *)
Definition sorted_indexName (s : Spec) : string :=
  "idx_" +:+ join "_" (sort_strings (map fst s)).

(** ** controllers/changes.controller.ts: [coerceBoolean] *)

(** The values [coerceBoolean] tells apart.  A number is an integer or
    [NaN]; [JObject p] is an object whose [valueOf()] returns the value [p]
    other than the object itself, [JObject None] one whose [valueOf] is
    missing or returns the object; [JOther] is a function, symbol or
    bigint. *)
Unset Elimination Schemes.
Inductive JsValue :=
| JUndefined
| JNull
| JBool (b : bool)
| JNumber (z : Z)
| JNaN
| JString (s : string)
| JArray (elements : list JsValue)
| JObject (valueOf : option JsValue)
| JOther.
Set Elimination Schemes.

Definition lower_char (c : ascii) : ascii :=
  let n := nat_of_ascii c in
  if bool_decide (65 ≤ n ∧ n ≤ 90) then ascii_of_nat (n + 32) else c.

(** [s.toLowerCase()], for ASCII letters. *)
Fixpoint toLowerCase (s : string) : string :=
  match s with
  | EmptyString => EmptyString
  | String c rest => String (lower_char c) (toLowerCase rest)
  end.

Definition TRUE_WORDS : list string := ["true"; "1"; "yes"; "y"; "on"].
Definition FALSE_WORDS : list string := ["false"; "0"; "no"; "n"; "off"].

(** Lines 15 to 21 of [coerceBoolean]: the string case. *)
Definition coerceString (s : string) (fallback : bool) : bool :=
  let normalized := toLowerCase (trim s) in
  if decide (normalized = "") then fallback
  else if bool_decide (normalized ∈ TRUE_WORDS) then true
  else if bool_decide (normalized ∈ FALSE_WORDS) then false
  else fallback.

Fixpoint coerceBoolean (value : JsValue) (fallback : bool) : bool :=
  match value with
  | JUndefined | JNull => fallback
  | JArray elements =>
      (fix last_of (l : list JsValue) : bool :=
         match l with
         | [] => fallback
         | [x] => coerceBoolean x fallback
         | _ :: rest => last_of rest
         end) elements
  | JBool b => b
  | JNumber z => negb (bool_decide (z = 0%Z))
  | JNaN => true
  | JString s => coerceString s fallback
  | JObject (Some primitive) => coerceBoolean primitive fallback
  | JObject None => fallback
  | JOther => fallback
  end.

(** Line 38 of [applyChangeController]:
    [coerceBoolean(req.query.dryRun, coerceBoolean(body.dryRun, false))]. *)
Definition resolve_dryRun (query body : JsValue) : bool :=
  coerceBoolean query (coerceBoolean body false).

(** ** Concrete runtime, worlds and requests used in the examples *)

(** A runtime whose patterns are plain prefixes. *)
Definition prefix_runtime : JsRuntime :=
  mkRuntime (fun pattern s => Some (String.prefix pattern s))
            (fun _ => None)
            (fun _ => "20250101").

Definition empty_world : World := mkWorld None None ∅ ∅ 1000 [] 0 [] [].

Definition target_x : Target := mkTarget "mongodb://x" "D".

Definition users_key : CollKey := ("mongodb://x", "D", "users").

(** A server that holds an empty collection [users]. *)
Definition users_world : World :=
  set_colls (insert users_key newCollection) empty_world.

Definition email_options : IndexOptions := mkIndexOptions (Some "ix_email") None None.

Definition index_request : ChangeRequest :=
  mkRequest (Some "c1") target_x (CreateIndex "users" [("email", 1%Z)] (Some email_options)) None.

(** The same name asked for other keys. *)
Definition clashing_request : ChangeRequest :=
  mkRequest (Some "c2") target_x (CreateIndex "users" [("name", 1%Z)] (Some email_options)) None.

Definition collection_request : ChangeRequest :=
  mkRequest (Some "c0") target_x (CreateCollection "users" None) None.

Definition for_real : ApplyOptions := mkApplyOptions None.
Definition simulated : ApplyOptions := mkApplyOptions (Some true).

(** A request without [options]: the name is derived from the spec. *)
Definition unsorted_spec : Spec := [("b", 1%Z); ("a", 1%Z)].

Definition unnamed_request : ChangeRequest :=
  mkRequest (Some "c3") target_x (CreateIndex "users" unsorted_spec None) None.

Definition no_result : ChangeResult := mkResult "" failed "" None 0.

Definition result_of (r : Res ChangeResult * World) : ChangeResult :=
  match fst r with
  | Ok res => res
  | Throw _ => no_result
  end.

(** The first real run of [index_request] on [users_world]. *)
Definition first_run : Res ChangeResult * World :=
  applyChange prefix_runtime index_request for_real users_world.

(** A server where [users] has the index [ix_email]. *)
Definition indexed_world : World := snd first_run.

(** The run of [clashing_request] on it. *)
Definition clash_run : Res ChangeResult * World :=
  applyChange prefix_runtime clashing_request for_real indexed_world.

(** A world with a cached handle for [mongodb://x] and a pattern that only
    allows [mongodb://prod]. *)
Definition guarded_world : World := set_allow (Some "mongodb://prod") indexed_world.






(** A server where the collection [users] was created by change [c0]. *)
Definition created_world : World :=
  snd (applyChange prefix_runtime collection_request for_real empty_world).

Definition admin_audit_key : CollKey := ("mongodb://x", "admin", AUDIT_COLLECTION).

Definition no_record : AuditRecord :=
  mkAudit 0 "" target_x (OtherOperation "") [] failed "" None 0 None None.

(** The audit record of change [c0]. *)
Definition created_record : AuditRecord :=
  default no_record (head (audit_records admin_audit_key created_world)).

(** The same server after a document was stored in [users]. *)
Definition populated_world : World :=
  set_colls (insert users_key (mkCollection [OtherDoc 7] [idIndex])) created_world.

Definition revert_ctx : RevertContext := mkCtx "mongodb://x" None.



(** ** Reasoning about computations *)

Lemma bind_Ok {A B} (m : M A) (k : A → M B) w a w' :
  m w = (Ok a, w') → bind m k w = k a w'.
Proof. intros H. unfold bind. by rewrite H. Qed.

Lemma bind_Throw {A B} (m : M A) (k : A → M B) w e w' :
  m w = (Throw e, w') → bind m k w = (Throw e, w').
Proof. intros H. unfold bind. by rewrite H. Qed.

Lemma keeps_ret {A X} (f : World → X) (a : A) : keeps f (ret a).
Proof. by intros w. Qed.

Lemma keeps_throw {A X} (f : World → X) e : keeps f (throw (A:=A) e).
Proof. by intros w. Qed.

Lemma keeps_gets {A X} (f : World → X) (g : World → A) : keeps f (gets g).
Proof. by intros w. Qed.

Lemma keeps_modify {X} (f : World → X) (g : World → World) :
  (∀ w, f (g w) = f w) → keeps f (modify g).
Proof. intros H w. apply H. Qed.

Lemma keeps_bind {A B X} (f : World → X) (m : M A) (k : A → M B) :
  keeps f m → (∀ a, keeps f (k a)) → keeps f (bind m k).
Proof.
  intros Hm Hk w. unfold bind. specialize (Hm w).
  destruct (m w) as [[a|e] w1]; simpl in *.
  - by rewrite Hk.
  - done.
Qed.

Lemma keeps_try_catch {A X} (f : World → X) (m : M A) (h : JsError → M A) :
  keeps f m → (∀ e, keeps f (h e)) → keeps f (try_catch m h).
Proof.
  intros Hm Hh w. unfold try_catch. specialize (Hm w).
  destruct (m w) as [[a|e] w1]; simpl in *.
  - done.
  - by rewrite Hh.
Qed.

Lemma keeps_driver {A X} (f : World → X) (op : M A) :
  (∀ g w, f (set_faults g w) = f w) → keeps f op → keeps f (driver op).
Proof.
  intros Hf Hop w. unfold driver.
  destruct (faults w) as [|[e|] fs]; simpl.
  - apply Hop.
  - apply Hf.
  - by rewrite Hop, Hf.
Qed.

Lemma keeps_if {A X} (f : World → X) (b : bool) (m1 m2 : M A) :
  keeps f m1 → keeps f m2 → keeps f (if b then m1 else m2).
Proof. by destruct b. Qed.

Lemma keeps_log {X} (f : World → X) ev :
  (∀ g w, f (set_trace g w) = f w) → keeps f (log ev).
Proof. intros H. apply keeps_modify. intros w. apply H. Qed.

Lemma keeps_Date_now {X} (f : World → X) :
  (∀ g w, f (set_clock g w) = f w) → keeps f Date_now.
Proof. intros H w. apply H. Qed.

Lemma keeps_parse {X} (f : World → X) req : keeps f (parse req).
Proof. unfold parse. destruct (validate req); [apply keeps_ret | apply keeps_throw]. Qed.

Ltac keeps_step :=
  first
    [ apply keeps_ret | apply keeps_throw | apply keeps_gets
    | apply keeps_parse
    | apply keeps_log; done
    | apply keeps_Date_now; done
    | apply keeps_modify; done
    | apply keeps_driver; [done|]
    | apply keeps_bind; [|intros ?]
    | apply keeps_try_catch; [|intros ?]
    | match goal with
      | |- keeps _ (if ?b then _ else _) => destruct b
      | |- keeps _ (match ?x with _ => _ end) => destruct x
      end ].

Ltac keeps_auto := repeat keeps_step.


Section Properties.

Variable rt : JsRuntime.

(** *** What never touches the collections *)

Lemma keeps_colls_newChangeId : keeps colls (newChangeId rt).
Proof. unfold newChangeId. keeps_auto. Qed.

Lemma keeps_colls_getClient u : keeps colls (getClient rt u).
Proof. unfold getClient, check_allow, cached_or_connect, connect. keeps_auto. Qed.

Lemma keeps_colls_listCollections k : keeps colls (listCollections k).
Proof. unfold listCollections. keeps_auto. Qed.

Lemma keeps_colls_coll_indexes k : keeps colls (coll_indexes k).
Proof.
  unfold coll_indexes. apply keeps_driver; [done|].
  intros w. by destruct (colls w !! k).
Qed.

Lemma keeps_colls_countDocuments k : keeps colls (countDocuments k).
Proof. unfold countDocuments. keeps_auto. Qed.

Lemma keeps_colls_perform_dry client db op : keeps colls (perform client db op true).
Proof.
  destruct op; simpl.
  - apply keeps_bind; [apply keeps_colls_listCollections|]. intros ?. keeps_auto.
  - apply keeps_bind; [apply keeps_colls_coll_indexes|]. intros ?. keeps_auto.
  - keeps_auto.
Qed.

Lemma keeps_colls_execute_dry parsed cid client audit t0 :
  keeps colls (execute parsed cid client audit true t0).
Proof.
  unfold execute. apply keeps_try_catch.
  - apply keeps_bind; [apply keeps_colls_perform_dry|]. intros ?. keeps_auto.
  - intros e. keeps_auto.
Qed.

Lemma keeps_colls_applyChange_dry req :
  keeps colls (applyChange rt req simulated).
Proof.
  unfold applyChange. simpl.
  apply keeps_bind; [keeps_auto|]. intros _.
  apply keeps_bind; [keeps_auto|]. intros t0.
  apply keeps_bind; [keeps_auto|]. intros parsed.
  apply keeps_bind.
  { destruct (truthy (changeId parsed)); [keeps_auto | apply keeps_colls_newChangeId]. }
  intros cid.
  apply keeps_bind; [apply keeps_colls_getClient|]. intros client.
  apply keeps_bind; [keeps_auto|]. intros audit.
  apply keeps_colls_execute_dry.
Qed.

(** *** The [try]/[catch] of [applyChange] always returns *)

Lemma execute_returns parsed cid client audit dryRun t0 w :
  ∃ res w', execute parsed cid client audit dryRun t0 w = (Ok res, w').
Proof.
  unfold execute, try_catch.
  destruct (bind (perform _ _ _ _) _ w) as [[res|e] w1] eqn:E.
  - eauto.
  - destruct dryRun; vm_compute; eauto.
Qed.

(** *** The connection manager *)

Lemma check_allow_spec u w :
  match truthy (env_ALLOW_TARGET_URI_REGEX w) with
  | Some pattern =>
      match RegExp_test rt pattern u with
      | Some true => check_allow rt u w = (Ok tt, w)
      | Some false => check_allow rt u w = (Throw NOT_ALLOWED, w)
      | None => ∃ e, check_allow rt u w = (Throw e, w)
      end
  | None => check_allow rt u w = (Ok tt, w)
  end.
Proof.
  unfold check_allow, bind, gets.
  destruct (truthy _) as [p|]; [|done].
  destruct (RegExp_test rt p u) as [[|]|]; eauto.
Qed.

Lemma check_allow_Ok u w : allowed rt w u → check_allow rt u w = (Ok tt, w).
Proof.
  unfold allowed. intros H. pose proof (check_allow_spec u w) as S.
  destruct (truthy _) as [p|]; [|done]. by rewrite H in S.
Qed.

Lemma check_allow_inv u x w w' :
  check_allow rt u w = (Ok x, w') → allowed rt w u ∧ w' = w.
Proof.
  unfold allowed. intros H. pose proof (check_allow_spec u w) as S.
  destruct (truthy _) as [p|].
  - destruct (RegExp_test rt p u) as [[|]|]; [|congruence|destruct S; congruence].
    split; [done|congruence].
  - split; [done|congruence].
Qed.

Lemma cached_or_connect_hit u c w :
  clientCache w !! u = Some c → cached_or_connect u w = (Ok c, w).
Proof. intros H. unfold cached_or_connect, bind, gets. by rewrite H. Qed.

Lemma cached_or_connect_inv u c w w' :
  cached_or_connect u w = (Ok c, w') →
  clientCache w' !! u = Some c ∧ colls w' = colls w
  ∧ env_ALLOW_TARGET_URI_REGEX w' = env_ALLOW_TARGET_URI_REGEX w
  ∧ env_AUDIT_DB w' = env_AUDIT_DB w
  ∧ (faults w = [] → faults w' = []).
Proof.
  unfold cached_or_connect, bind, gets.
  destruct (clientCache w !! u) as [c0|] eqn:Hc.
  - intros [= -> ->]. by repeat split.
  - unfold connect, log, modify, driver, bind, ret.
    destruct (faults w) as [|[e|] fs] eqn:Hf; simpl; rewrite Hf; intros [= <- <-]; simpl;
      rewrite ?lookup_insert_eq; by repeat split.
Qed.

Lemma getClient_rejects u pattern w :
  truthy (env_ALLOW_TARGET_URI_REGEX w) = Some pattern →
  RegExp_test rt pattern u = Some false →
  getClient rt u w = (Throw NOT_ALLOWED, w).
Proof.
  intros Hp Ht. pose proof (check_allow_spec u w) as S. rewrite Hp, Ht in S.
  unfold getClient. by apply bind_Throw.
Qed.

Lemma getClient_hit u c w :
  allowed rt w u → clientCache w !! u = Some c → getClient rt u w = (Ok c, w).
Proof.
  intros Ha Hc. unfold getClient.
  rewrite (bind_Ok _ _ _ _ _ (check_allow_Ok u w Ha)).
  by apply cached_or_connect_hit.
Qed.

Lemma getClient_inv u c w w' :
  getClient rt u w = (Ok c, w') →
  allowed rt w u ∧ clientCache w' !! u = Some c ∧ colls w' = colls w
  ∧ env_ALLOW_TARGET_URI_REGEX w' = env_ALLOW_TARGET_URI_REGEX w
  ∧ env_AUDIT_DB w' = env_AUDIT_DB w
  ∧ (faults w = [] → faults w' = []).
Proof.
  unfold getClient, bind.
  destruct (check_allow rt u w) as [[x|e] w1] eqn:E; [|done].
  apply check_allow_inv in E as [Ha ->]. intros H.
  split; [done|]. by apply cached_or_connect_inv.
Qed.

(** *** C3 *)

(** C3: for every request and every would-be outcome, [applyChange] with
    [simulate = true] leaves every collection of every server as it was
    (nothing created, no index added) and so writes no audit record, and the
    execution stage still returns its computed [ChangeResult]. *)
Theorem applyChange_simulate_frame (req : ChangeRequest) (w : World) :
  colls (snd (applyChange rt req (mkApplyOptions (Some true)) w)) = colls w
  ∧ (∀ k, audit_records k (snd (applyChange rt req (mkApplyOptions (Some true)) w))
          = audit_records k w)
  ∧ (∀ parsed cid client audit t0 w0,
       ∃ res w1, execute parsed cid client audit true t0 w0 = (Ok res, w1)
                 ∧ colls w1 = colls w0).
Proof.
  pose proof (keeps_colls_applyChange_dry req w) as Hk. unfold simulated in Hk.
  split; [done|]. split.
  - intros k. unfold audit_records, docs_at. by rewrite Hk.
  - intros parsed cid client audit t0 w0.
    destruct (execute_returns parsed cid client audit true t0 w0) as (res & w1 & E).
    exists res, w1. split; [done|].
    pose proof (keeps_colls_execute_dry parsed cid client audit t0 w0) as H0.
    by rewrite E in H0.
Qed.

(** *** C10 *)

(** C10: while an allow-pattern is configured, [getClient] tests the URI
    against it before it looks at the connection cache or connects: a URI
    that does not match makes the call throw and leaves the whole world,
    cache and connection log included, untouched, also when a handle for
    that URI was cached by an earlier call made without a pattern. *)
Theorem getClient_pattern_first (u pattern : string) (w : World) :
  env_ALLOW_TARGET_URI_REGEX w = Some pattern →
  pattern ≠ "" →
  RegExp_test rt pattern u = Some false →
  getClient rt u w = (Throw NOT_ALLOWED, w)
  ∧ (∀ w0 c w1,
       getClient rt u w0 = (Ok c, w1) →
       clientCache w1 !! u = Some c
       ∧ getClient rt u (set_allow (Some pattern) w1)
         = (Throw NOT_ALLOWED, set_allow (Some pattern) w1)).
Proof.
  intros Henv Hne Htest.
  assert (∀ w2, env_ALLOW_TARGET_URI_REGEX w2 = Some pattern →
                getClient rt u w2 = (Throw NOT_ALLOWED, w2)) as Hrej.
  { intros w2 H2. apply getClient_rejects with pattern; [|done].
    rewrite H2. simpl. by destruct (decide (pattern = "")). }
  split; [by apply Hrej|].
  intros w0 c w1 Hget. apply getClient_inv in Hget as (_ & Hc & _).
  split; [done|]. by apply Hrej.
Qed.

(** *** Inversion of computations *)

Lemma bind_inv {A B} (m : M A) (k : A → M B) w r w' :
  bind m k w = (r, w') →
  (∃ a w1, m w = (Ok a, w1) ∧ k a w1 = (r, w'))
  ∨ (∃ e, m w = (Throw e, w') ∧ r = Throw e).
Proof.
  unfold bind. destruct (m w) as [[a|e] w1].
  - intros H. left. eauto.
  - intros [= <- <-]. right. eauto.
Qed.

Lemma bind_inv_Ok {A B} (m : M A) (k : A → M B) w b w' :
  bind m k w = (Ok b, w') → ∃ a w1, m w = (Ok a, w1) ∧ k a w1 = (Ok b, w').
Proof.
  intros H. apply bind_inv in H as [(a & w1 & H1 & H2)|(e & _ & ?)]; [eauto|done].
Qed.

Lemma try_catch_inv {A} (m : M A) (h : JsError → M A) w r w' :
  try_catch m h w = (r, w') →
  (∃ a, m w = (Ok a, w') ∧ r = Ok a)
  ∨ (∃ e w1, m w = (Throw e, w1) ∧ h e w1 = (r, w')).
Proof.
  unfold try_catch. destruct (m w) as [[a|e] w1].
  - intros [= <- <-]. left. eauto.
  - intros H. right. eauto.
Qed.

(** *** Shape of the outcome of the dispatch *)

Lemma perform_outcome client db op dryRun w o w' :
  perform client db op dryRun w = (Ok o, w') →
  (o_status o = applied ∨ o_status o = skipped) ∧ ∃ p, o_revertPlan o = Some p.
Proof.
  destruct op as [n opt|c s opt|ty]; simpl; intros H.
  - apply bind_inv_Ok in H as (found & w1 & _ & H).
    destruct (bool_decide (0 < length found)).
    + injection H as <- _. split; [by right|by eexists].
    + apply bind_inv_Ok in H as (? & w2 & _ & H).
      injection H as <- _. split; [by left|by eexists].
  - apply bind_inv_Ok in H as (ixs & w1 & _ & H).
    destruct (find _ ixs) as [same|].
    + destruct (decide (ix_key same = s)); [|done].
      injection H as <- _. split; [by right|by eexists].
    + apply bind_inv_Ok in H as (? & w2 & _ & H).
      injection H as <- _. split; [by left|by eexists].
  - done.
Qed.

Lemma execute_shape parsed cid client audit dryRun t0 w res w' :
  execute parsed cid client audit dryRun t0 w = (Ok res, w') →
  cr_changeId res = cid
  ∧ ((cr_status res = failed ∧ cr_revertPlan res = None)
     ∨ ((cr_status res = applied ∨ cr_status res = skipped)
        ∧ ∃ p, cr_revertPlan res = Some (Some p))).
Proof.
  unfold execute. intros H.
  apply try_catch_inv in H as [(a & H & [= <-])|(e & w1 & _ & H)].
  - apply bind_inv_Ok in H as (o & w1 & Hp & H).
    apply perform_outcome in Hp as [Hst [p Hp]].
    apply bind_inv_Ok in H as (? & w2 & _ & H).
    apply bind_inv_Ok in H as (t1 & w3 & _ & H).
    injection H as <- _. simpl. split; [done|]. right. split; [done|].
    exists p. by rewrite Hp.
  - apply bind_inv_Ok in H as (? & w2 & _ & H).
    apply bind_inv_Ok in H as (t1 & w3 & _ & H).
    injection H as <- _. simpl. split; [done|]. by left.
Qed.

(** A call of [applyChange] either throws before it executes anything, from
    the validator or from [getClient], or runs the [try]/[catch] with the
    client of the request's URI. *)
Lemma applyChange_inv req opts w r w' :
  applyChange rt req opts w = (r, w') →
  (∃ e, r = Throw e ∧ colls w' = colls w
        ∧ (validate req ≠ [] ∨ ∃ wa, getClient rt (uri (target req)) wa = (Throw e, w')))
  ∨ (∃ cid client t0 w0,
       validate req = []
       ∧ cid = default cid (truthy (changeId req))
       ∧ clientCache w0 !! uri (target req) = Some client
       ∧ colls w0 = colls w
       ∧ env_AUDIT_DB w0 = env_AUDIT_DB w
       ∧ env_ALLOW_TARGET_URI_REGEX w0 = env_ALLOW_TARGET_URI_REGEX w
       ∧ allowed rt w (uri (target req))
       ∧ (faults w = [] → faults w0 = [])
       ∧ execute req cid client
           (coll_key client (str_or (env_AUDIT_DB w) "admin") AUDIT_COLLECTION)
           (default false (ao_dryRun opts)) t0 w0 = (r, w')).
Proof.
  unfold applyChange. intros H.
  apply bind_inv in H as [(? & wa & Hlog & H)|(e & Hlog & _)]; [|done].
  injection Hlog as <- <-.
  apply bind_inv in H as [(t0 & wb & Hnow & H)|(e & Hnow & _)]; [|done].
  injection Hnow as <- <-.
  apply bind_inv in H as [(parsed & wc & Hparse & H)|(e & Hparse & ->)]; cycle 1.
  { left. exists e. unfold parse in Hparse.
    destruct (validate req) eqn:Hv; [done|]. injection Hparse as <- <-.
    split; [done|]. split; [done|]. by left. }
  unfold parse in Hparse. destruct (validate req) eqn:Hv; [|done].
  injection Hparse as <- <-.
  apply bind_inv in H as [(cid & wd & Hcid & H)|(e & Hcid & _)]; cycle 1.
  { by destruct (truthy (changeId req)). }
  assert (colls wd = colls w ∧ env_AUDIT_DB wd = env_AUDIT_DB w
          ∧ env_ALLOW_TARGET_URI_REGEX wd = env_ALLOW_TARGET_URI_REGEX w
          ∧ (faults w = [] → faults wd = [])
          ∧ cid = default cid (truthy (changeId req))) as (Hc & Ha & Hal & Hf & Hid).
  { destruct (truthy (changeId req)); injection Hcid as <- <-; by repeat split. }
  apply bind_inv in H as [(client & we & Hget & H)|(e & Hget & ->)]; cycle 1.
  { left. exists e. split; [done|]. split; [|right; eauto].
    pose proof (keeps_colls_getClient (uri (target req)) wd) as Hk.
    rewrite Hget in Hk. simpl in Hk. congruence. }
  apply getClient_inv in Hget as (Hall & Hcache & Hc' & Hal' & Ha' & Hf').
  apply bind_inv in H as [(audit & wf & Haud & H)|(e & Haud & _)]; [|done].
  injection Haud as <- <-.
  right. exists cid, client. eexists _, we.
  split; [done|]. split; [done|]. split; [done|]. split; [congruence|].
  split; [congruence|]. split; [congruence|]. split.
  { unfold allowed in *. by rewrite Hal in Hall. }
  split; [auto|]. rewrite <- Ha, <- Ha'. done.
Qed.

(** *** C9 *)

(** C9, as the code has it: every result that [applyChange] returns carries
    [changeId], [status], [message] and [durationMs]; a result whose status
    is [applied] or [skipped] also carries a [revertPlan] that is not
    [null]; a result whose status is [failed] has no [revertPlan]
    property. *)
Theorem applyChange_result_fields (req : ChangeRequest) (opts : ApplyOptions)
    (w w' : World) (res : ChangeResult) :
  applyChange rt req opts w = (Ok res, w') →
  res = mkResult (cr_changeId res) (cr_status res) (cr_message res) (cr_revertPlan res)
                 (cr_durationMs res)
  ∧ cr_status res ≠ reverted
  ∧ (cr_status res = failed ↔ cr_revertPlan res = None)
  ∧ (cr_status res ≠ failed → ∃ p, cr_revertPlan res = Some (Some p)).
Proof.
  intros H. split; [by destruct res|].
  apply applyChange_inv in H as [(e & ? & _)|(cid & client & t0 & w0 & H)]; [done|].
  destruct H as (_ & _ & _ & _ & _ & _ & _ & _ & H).
  apply execute_shape in H as [_ [[Hs Hp]|[Hs [p Hp]]]].
  - rewrite Hs, Hp. by repeat split.
  - rewrite Hp. repeat split.
    + by destruct Hs as [-> | ->].
    + by destruct Hs as [-> | ->].
    + done.
    + by exists p.
Qed.

(** *** Runs without injected faults *)

Lemma driver_quiet {A} (op : M A) w : faults w = [] → driver op w = op w.
Proof. intros H. unfold driver. by rewrite H. Qed.

Lemma quiet_ret {A} (a : A) : quiet (ret a).
Proof. by intros w. Qed.

Lemma quiet_throw {A} e : quiet (throw (A:=A) e).
Proof. by intros w. Qed.

Lemma quiet_gets {A} (g : World → A) : quiet (gets g).
Proof. by intros w. Qed.

Lemma quiet_modify (g : World → World) :
  (∀ w, faults (g w) = faults w) → quiet (modify g).
Proof. intros H w Hw. simpl. by rewrite H. Qed.

Lemma quiet_bind {A B} (m : M A) (k : A → M B) :
  quiet m → (∀ a, quiet (k a)) → quiet (bind m k).
Proof.
  intros Hm Hk w Hw. unfold bind. specialize (Hm w Hw).
  destruct (m w) as [[a|e] w1]; simpl in *; [by apply Hk | done].
Qed.

Lemma quiet_try_catch {A} (m : M A) (h : JsError → M A) :
  quiet m → (∀ e, quiet (h e)) → quiet (try_catch m h).
Proof.
  intros Hm Hh w Hw. unfold try_catch. specialize (Hm w Hw).
  destruct (m w) as [[a|e] w1]; simpl in *; [done | by apply Hh].
Qed.

Lemma quiet_driver {A} (op : M A) : quiet op → quiet (driver op).
Proof. intros Hop w Hw. rewrite driver_quiet by done. by apply Hop. Qed.

Lemma quiet_keeps {A} (m : M A) : keeps faults m → quiet m.
Proof. intros H w Hw. by rewrite H. Qed.

Lemma quiet_colls_op {A} (op : M A) :
  (∀ w, faults (snd (op w)) = faults w) → quiet (driver op).
Proof. intros H. apply quiet_driver. intros w Hw. by rewrite H. Qed.

Ltac quiet_step :=
  first
    [ apply quiet_ret | apply quiet_throw | apply quiet_gets
    | apply quiet_modify; done
    | apply quiet_colls_op; intros ?; repeat case_match; done
    | apply quiet_bind; [|intros ?]
    | apply quiet_try_catch; [|intros ?]
    | match goal with
      | |- quiet (if ?b then _ else _) => destruct b
      | |- quiet (match ?x with _ => _ end) => destruct x
      end ].

Ltac quiet_auto := repeat quiet_step.


Lemma getClient_quiet u w :
  allowed rt w u → faults w = [] →
  ∃ w0, getClient rt u w = (Ok (client_for w u), w0)
        ∧ colls w0 = colls w ∧ faults w0 = []
        ∧ clientCache w0 !! u = Some (client_for w u)
        ∧ env_AUDIT_DB w0 = env_AUDIT_DB w
        ∧ env_ALLOW_TARGET_URI_REGEX w0 = env_ALLOW_TARGET_URI_REGEX w.
Proof.
  intros Ha Hf. unfold client_for.
  destruct (clientCache w !! u) as [c|] eqn:Hc; simpl.
  - exists w. by rewrite (getClient_hit u c w Ha Hc).
  - unfold getClient. rewrite (bind_Ok _ _ _ _ _ (check_allow_Ok u w Ha)).
    unfold cached_or_connect, connect, log, modify, driver, bind, gets, ret.
    rewrite Hc. simpl. rewrite Hf. eexists. split; [done|]. simpl.
    by rewrite lookup_insert_eq.
Qed.

(** Without faults, a valid request for an allowed URI reaches the
    [try]/[catch]. *)
Lemma applyChange_quiet req opts w :
  validate req = [] → allowed rt w (uri (target req)) → faults w = [] →
  ∃ cid t0 w0,
    applyChange rt req opts w
    = execute req cid (client_for w (uri (target req)))
        (coll_key (client_for w (uri (target req))) (str_or (env_AUDIT_DB w) "admin")
                  AUDIT_COLLECTION)
        (default false (ao_dryRun opts)) t0 w0
    ∧ colls w0 = colls w ∧ faults w0 = []
    ∧ clientCache w0 !! uri (target req) = Some (client_for w (uri (target req)))
    ∧ env_AUDIT_DB w0 = env_AUDIT_DB w
    ∧ env_ALLOW_TARGET_URI_REGEX w0 = env_ALLOW_TARGET_URI_REGEX w.
Proof.
  intros Hv Ha Hf. unfold applyChange, parse. rewrite Hv.
  set (w1 := set_clock (fun t => (t + 1)%Z)
               (set_trace (fun t => t ++ [EvApply req (default false (ao_dryRun opts))]) w)).
  assert (∀ cid (w2 : World),
            colls w2 = colls w → faults w2 = [] → clientCache w2 = clientCache w →
            env_AUDIT_DB w2 = env_AUDIT_DB w →
            env_ALLOW_TARGET_URI_REGEX w2 = env_ALLOW_TARGET_URI_REGEX w →
            ∃ w0,
              bind (getClient rt (uri (target req)))
                (fun client => bind (auditCollection client)
                   (fun audit => execute req cid client audit
                                   (default false (ao_dryRun opts)) (clock (set_trace (fun t => t ++ [EvApply req (default false (ao_dryRun opts))]) w)))) w2
              = execute req cid (client_for w (uri (target req)))
                  (coll_key (client_for w (uri (target req))) (str_or (env_AUDIT_DB w) "admin")
                     AUDIT_COLLECTION)
                  (default false (ao_dryRun opts)) (clock (set_trace (fun t => t ++ [EvApply req (default false (ao_dryRun opts))]) w)) w0
              ∧ colls w0 = colls w ∧ faults w0 = []
              ∧ clientCache w0 !! uri (target req) = Some (client_for w (uri (target req)))
              ∧ env_AUDIT_DB w0 = env_AUDIT_DB w
              ∧ env_ALLOW_TARGET_URI_REGEX w0 = env_ALLOW_TARGET_URI_REGEX w) as Hrest.
  { intros cid w2 Hc2 Hf2 Hcc2 Ha2 Hal2.
    assert (allowed rt w2 (uri (target req))) as Ha'.
    { unfold allowed in *. by rewrite Hal2. }
    destruct (getClient_quiet (uri (target req)) w2 Ha' Hf2)
      as (w0 & Hg & Hc0 & Hf0 & Hcc0 & Ha0 & Hal0).
    assert (client_for w2 (uri (target req)) = client_for w (uri (target req))) as Hcf.
    { unfold client_for. by rewrite Hcc2. }
    rewrite Hcf in *.
    exists w0. rewrite (bind_Ok _ _ _ _ _ Hg).
    unfold auditCollection, audit_key, bind, gets. rewrite Ha0, Ha2.
    repeat split; congruence. }
  destruct (truthy (changeId req)) as [cid|] eqn:Hcid.
  - destruct (Hrest cid w1) as (w0 & E & ?); try done.
    exists cid. eexists _, w0. split; [|done].
    unfold bind at 1. simpl. unfold bind at 1. simpl. unfold bind at 1. simpl.
    rewrite Hcid. unfold bind at 1. simpl. apply E.
  - set (cid := "chg-" +:+ Date_yyyymmdd rt (clock w1) +:+ "-" +:+ hd "00000000" (entropy w1)).
    destruct (Hrest cid (set_entropy tail (set_clock (fun t => (t + 1)%Z) w1)))
      as (w0 & E & ?); try done.
    exists cid. eexists _, w0. split; [|done].
    unfold bind at 1. simpl. unfold bind at 1. simpl. unfold bind at 1. simpl.
    rewrite Hcid. unfold bind at 1. simpl. apply E.
Qed.


(** *** What the execution stage does to the documents *)

Lemma docs_at_insert k k' c (w : World) :
  docs_at k' (set_colls (insert k c) w) = if decide (k' = k) then docs c else docs_at k' w.
Proof.
  unfold docs_at. simpl. destruct (decide (k' = k)) as [->|Hne].
  - by rewrite lookup_insert_eq.
  - by rewrite lookup_insert_ne.
Qed.

Lemma docs_at_insertOne k k' mk w :
  docs_at k' (snd (insertOne k mk w))
  = if decide (k' = k) then docs_at k w ++ [AuditDoc (mk (nextOid w))] else docs_at k' w.
Proof.
  unfold insertOne. simpl.
  change (docs_at k' (set_nextOid S (set_colls ?f w))) with (docs_at k' (set_colls f w)).
  rewrite docs_at_insert. destruct (decide (k' = k)); [|done].
  simpl. unfold docs_at. by destruct (colls w !! k).
Qed.

Lemma docs_default k (w : World) : docs (default newCollection (colls w !! k)) = docs_at k w.
Proof. unfold docs_at. by destruct (colls w !! k). Qed.

Ltac strip_docs_at :=
  first
    [ progress change (docs_at ?k (set_clock ?f ?w)) with (docs_at k w)
    | progress change (docs_at ?k (set_nextOid ?f ?w)) with (docs_at k w)
    | progress change (docs_at ?k (set_faults ?f ?w)) with (docs_at k w)
    | progress change (docs_at ?k (set_trace ?f ?w)) with (docs_at k w) ].

Lemma keeps_docs_createCollection k' k o : keeps (docs_at k') (createCollection k o).
Proof.
  unfold createCollection. apply keeps_driver; [done|]. intros w.
  destruct (colls w !! k) eqn:E; simpl; [done|].
  rewrite docs_at_insert. destruct (decide (k' = k)) as [->|]; [|done].
  unfold docs_at. by rewrite E.
Qed.

Lemma keeps_docs_createIndex k' k s n : keeps (docs_at k') (createIndex k s n).
Proof.
  unfold createIndex. apply keeps_driver; [done|]. intros w.
  assert (docs (default newCollection (colls w !! k)) = docs_at k w) as Hd.
  { unfold docs_at. by destruct (colls w !! k). }
  destruct (find (named n) _) as [i|].
  - destruct (decide (ix_key i = s)); simpl; [|done].
    rewrite docs_at_insert. destruct (decide (k' = k)) as [->|]; done.
  - destruct (find _ _); simpl; [done|].
    rewrite docs_at_insert. destruct (decide (k' = k)) as [->|]; done.
Qed.

Lemma keeps_docs_listCollections k' k : keeps (docs_at k') (listCollections k).
Proof. unfold listCollections. keeps_auto. Qed.

Lemma keeps_docs_coll_indexes k' k : keeps (docs_at k') (coll_indexes k).
Proof.
  unfold coll_indexes. apply keeps_driver; [done|].
  intros w. by destruct (colls w !! k).
Qed.

Lemma keeps_docs_perform k' client db op dryRun :
  keeps (docs_at k') (perform client db op dryRun).
Proof.
  destruct op; simpl.
  - apply keeps_bind; [apply keeps_docs_listCollections|]. intros ?.
    destruct (bool_decide _); [apply keeps_ret|].
    apply keeps_bind; [|intros ?; apply keeps_ret].
    destruct dryRun; [apply keeps_ret | apply keeps_docs_createCollection].
  - apply keeps_bind; [apply keeps_docs_coll_indexes|]. intros ?.
    destruct (find _ _).
    + destruct (decide _); [apply keeps_ret | apply keeps_throw].
    + apply keeps_bind; [|intros ?; apply keeps_ret].
      destruct dryRun; [apply keeps_ret|].
      apply keeps_bind; [apply keeps_docs_createIndex | intros ?; apply keeps_ret].
  - apply keeps_throw.
Qed.

(** The [try]/[catch] of a real run returns a result and appends exactly one
    record, which carries the result, to the audit collection; a throw of the
    dispatch becomes a [failed] result with the stringified cause. *)
Lemma execute_audits parsed cid client audit t0 w :
  ∃ res rec w',
    execute parsed cid client audit false t0 w = (Ok res, w')
    ∧ docs_at audit w' = docs_at audit w ++ [AuditDoc rec]
    ∧ (∀ k, k ≠ audit → docs_at k w' = docs_at k w)
    ∧ ar_changeId rec = cid ∧ cr_changeId res = cid
    ∧ ar_status rec = cr_status res ∧ ar_message rec = cr_message res
    ∧ ar_revertPlan rec = cr_revertPlan res
    ∧ ar_target rec = target parsed ∧ ar_operation rec = operation parsed
    ∧ (∀ e w1, perform client (database (target parsed)) (operation parsed) false w
               = (Throw e, w1) →
               cr_status res = failed ∧ cr_message res = stringify_cause e).
Proof.
  pose proof (fun k => keeps_docs_perform k client (database (target parsed))
                         (operation parsed) false w) as Hk.
  unfold execute, try_catch.
  destruct (perform client _ _ false w) as [[o|e] w1] eqn:Hp; simpl in Hk.
  - rewrite (bind_Ok _ _ _ _ _ Hp). unfold bind, Date_now, ret, insertOne. simpl.
    eexists _, _, _. split; [reflexivity|].
    repeat strip_docs_at. setoid_rewrite docs_at_insert. simpl.
    split. { rewrite decide_True by done. rewrite docs_default, (Hk audit). reflexivity. }
    split. { intros k Hne. destruct (decide (k = audit)); [done|]. apply (Hk k). }
    repeat split; done.
  - rewrite (bind_Throw _ _ _ _ _ Hp). unfold bind, Date_now, ret, insertOne. simpl.
    eexists _, _, _. split; [reflexivity|].
    repeat strip_docs_at. setoid_rewrite docs_at_insert. simpl.
    split. { rewrite decide_True by done. rewrite docs_default, (Hk audit). reflexivity. }
    split. { intros k Hne. destruct (decide (k = audit)); [done|]. apply (Hk k). }
    repeat split; try done; congruence.
Qed.


(** *** Parts of the world that no server call touches *)

Section Blind.

Context {X : Type} (f : World → X) (Hf : server_blind f).

Lemma blind_colls g w : f (set_colls g w) = f w.
Proof. apply Hf. Qed.
Lemma blind_faults g w : f (set_faults g w) = f w.
Proof. apply Hf. Qed.
Lemma blind_clock g w : f (set_clock g w) = f w.
Proof. apply Hf. Qed.
Lemma blind_nextOid g w : f (set_nextOid g w) = f w.
Proof. apply Hf. Qed.
Lemma blind_entropy g w : f (set_entropy g w) = f w.
Proof. apply Hf. Qed.

Lemma keeps_blind_driver {A} (op : M A) : keeps f op → keeps f (driver op).
Proof. apply keeps_driver. apply blind_faults. Qed.

Lemma keeps_blind_raw {A} (op : World → Res A * World) :
  (∀ w, snd (op w) = w ∨ ∃ g, snd (op w) = set_colls g w) → keeps f op.
Proof. intros H w. destruct (H w) as [->|[g ->]]; [done | apply blind_colls]. Qed.

Lemma keeps_blind_Date_now : keeps f Date_now.
Proof. intros w. apply blind_clock. Qed.

Lemma keeps_blind_newChangeId : keeps f (newChangeId rt).
Proof.
  intros w. unfold newChangeId, bind, Date_now, randomHex, ret. simpl.
  by rewrite blind_entropy, blind_clock.
Qed.

Lemma keeps_blind_listCollections k : keeps f (listCollections k).
Proof. apply keeps_blind_driver, keeps_gets. Qed.

Lemma keeps_blind_countDocuments k : keeps f (countDocuments k).
Proof. apply keeps_blind_driver, keeps_gets. Qed.

Lemma keeps_blind_coll_indexes k : keeps f (coll_indexes k).
Proof.
  apply keeps_blind_driver, keeps_blind_raw. intros w. left. by destruct (colls w !! k).
Qed.

Lemma keeps_blind_createCollection k o : keeps f (createCollection k o).
Proof.
  apply keeps_blind_driver, keeps_blind_raw. intros w.
  destruct (colls w !! k); [by left | right; by eexists].
Qed.

Lemma keeps_blind_createIndex k s n : keeps f (createIndex k s n).
Proof.
  apply keeps_blind_driver, keeps_blind_raw. intros w. cbn beta zeta.
  destruct (find (named n) _) as [i|].
  - destruct (decide _); [right; by eexists | by left].
  - destruct (find _ _); [by left | right; by eexists].
Qed.

Lemma keeps_blind_dropIndex k n : keeps f (dropIndex k n).
Proof.
  apply keeps_blind_driver, keeps_blind_raw. intros w.
  destruct (colls w !! k); [|by left].
  destruct (decide _); [by left|].
  destruct (find _ _); [right; by eexists | by left].
Qed.

Lemma keeps_blind_dropCollection k : keeps f (dropCollection k).
Proof.
  apply keeps_blind_driver, keeps_blind_raw. intros w.
  destruct (colls w !! k); [right; by eexists | by left].
Qed.

Lemma keeps_blind_insertOne k mk : keeps f (insertOne k mk).
Proof. intros w. unfold insertOne. simpl. by rewrite blind_nextOid, blind_colls. Qed.

Lemma keeps_blind_updateOne k id g : keeps f (updateOne k id g).
Proof. intros w. apply blind_colls. Qed.

Lemma keeps_blind_perform client db op dryRun : keeps f (perform client db op dryRun).
Proof.
  destruct op; simpl.
  - apply keeps_bind; [apply keeps_blind_listCollections|]. intros ?.
    destruct (bool_decide _); [apply keeps_ret|].
    apply keeps_bind; [|intros ?; apply keeps_ret].
    destruct dryRun; [apply keeps_ret | apply keeps_blind_createCollection].
  - apply keeps_bind; [apply keeps_blind_coll_indexes|]. intros ?.
    destruct (find _ _).
    + destruct (decide _); [apply keeps_ret | apply keeps_throw].
    + apply keeps_bind; [|intros ?; apply keeps_ret].
      destruct dryRun; [apply keeps_ret|].
      apply keeps_bind; [apply keeps_blind_createIndex | intros ?; apply keeps_ret].
  - apply keeps_throw.
Qed.

Lemma keeps_blind_execute parsed cid client audit dryRun t0 :
  keeps f (execute parsed cid client audit dryRun t0).
Proof.
  unfold execute. apply keeps_try_catch.
  - apply keeps_bind; [apply keeps_blind_perform|]. intros o.
    apply keeps_bind.
    + destruct dryRun; [apply keeps_ret|].
      apply keeps_bind; [apply keeps_blind_Date_now | intros ?; apply keeps_blind_insertOne].
    + intros ?. apply keeps_bind; [apply keeps_blind_Date_now | intros ?; apply keeps_ret].
  - intros e. apply keeps_bind.
    + destruct dryRun; [apply keeps_ret|].
      apply keeps_bind; [apply keeps_blind_Date_now | intros ?; apply keeps_blind_insertOne].
    + intros ?. apply keeps_bind; [apply keeps_blind_Date_now | intros ?; apply keeps_ret].
Qed.

Lemma keeps_blind_revert_record client audit cid ctx rec :
  keeps f (revert_record client audit cid ctx rec).
Proof.
  unfold revert_record. destruct (ar_operation rec).
  - apply keeps_bind; [apply keeps_blind_countDocuments|]. intros ?.
    destruct (bool_decide _); [apply keeps_ret|].
    apply keeps_try_catch; [|intros ?; apply keeps_ret].
    apply keeps_bind; [apply keeps_blind_dropCollection|]. intros ?.
    apply keeps_bind; [apply keeps_blind_Date_now|]. intros ?.
    apply keeps_bind; [apply keeps_blind_updateOne | intros ?; apply keeps_ret].
  - apply keeps_try_catch; [|intros ?; apply keeps_ret].
    apply keeps_bind; [apply keeps_blind_dropIndex|]. intros ?.
    apply keeps_bind; [apply keeps_blind_Date_now|]. intros ?.
    apply keeps_bind; [apply keeps_blind_updateOne | intros ?; apply keeps_ret].
  - apply keeps_ret.
Qed.

End Blind.

Lemma blind_clientCache : server_blind clientCache.
Proof. by repeat split. Qed.
Lemma blind_env_AUDIT_DB : server_blind env_AUDIT_DB.
Proof. by repeat split. Qed.
Lemma blind_env_ALLOW : server_blind env_ALLOW_TARGET_URI_REGEX.
Proof. by repeat split. Qed.
Lemma blind_trace : server_blind trace.
Proof. by repeat split. Qed.
Lemma blind_revert_calls : server_blind revert_calls.
Proof. by repeat split. Qed.


(** *** C4 *)

Lemma execute_of_Ok parsed cid client audit dryRun t0 w o w1 :
  perform client (database (target parsed)) (operation parsed) dryRun w = (Ok o, w1) →
  ∃ d w', execute parsed cid client audit dryRun t0 w
          = (Ok (mkResult cid (o_status o) (o_message o) (Some (o_revertPlan o)) d), w').
Proof.
  intros Hp. unfold execute, try_catch. rewrite (bind_Ok _ _ _ _ _ Hp).
  destruct dryRun; by eexists _, _.
Qed.

Lemma execute_of_Throw parsed cid client audit dryRun t0 w e w1 :
  perform client (database (target parsed)) (operation parsed) dryRun w = (Throw e, w1) →
  ∃ d w', execute parsed cid client audit dryRun t0 w
          = (Ok (mkResult cid failed (stringify_cause e) None d), w').
Proof.
  intros Hp. unfold execute, try_catch. rewrite (bind_Throw _ _ _ _ _ Hp).
  destruct dryRun; by eexists _, _.
Qed.



(** *** C1 *)

Lemma find_app_None {A} (p : A → bool) (l : list A) (x : A) :
  find p l = None → p x = true → find p (l ++ [x]) = Some x.
Proof.
  induction l as [|y l IH]; simpl; intros Hn Hx.
  - by rewrite Hx.
  - destruct (p y); [done | by apply IH].
Qed.

Lemma coll_indexes_quiet k col w :
  faults w = [] → colls w !! k = Some col → coll_indexes k w = (Ok (indexes col), w).
Proof. intros Hf Hc. unfold coll_indexes. rewrite driver_quiet by done. by rewrite Hc. Qed.

Lemma coll_indexes_quiet_inv k ixs w w' :
  faults w = [] → coll_indexes k w = (Ok ixs, w') →
  w' = w ∧ ∃ col, colls w !! k = Some col ∧ ixs = indexes col.
Proof.
  intros Hf. unfold coll_indexes. rewrite driver_quiet by done.
  destruct (colls w !! k) as [col|]; [|done].
  intros [= <- <-]. eauto.
Qed.

(** The dispatch on a [createIndex] when the collection already has an index
    of the effective name. *)
Lemma perform_index_existing client db c s o dryRun col i w :
  faults w = [] →
  colls w !! coll_key client db c = Some col →
  find (named (indexName s o)) (indexes col) = Some i →
  perform client db (CreateIndex c s o) dryRun w
  = if decide (ix_key i = s)
    then (Ok (mkOutcome skipped
                "Change skipped because an index with the same name and keys already exists."
                (Some (dropIndex_plan c (indexName s o)))), w)
    else (Throw (Error "An index with this name already exists but uses different keys."), w).
Proof.
  intros Hf Hc Hfind. simpl.
  rewrite (bind_Ok _ _ _ _ _ (coll_indexes_quiet _ _ _ Hf Hc)). rewrite Hfind.
  by destruct (decide (ix_key i = s)).
Qed.

(** A real [createIndex] dispatch that ends [applied] has appended the index
    under the effective name. *)
Lemma perform_index_applied client db c s o out w w' :
  faults w = [] →
  perform client db (CreateIndex c s o) false w = (Ok out, w') →
  o_status out = applied →
  ∃ col, colls w !! coll_key client db c = Some col
         ∧ find (named (indexName s o)) (indexes col) = None
         ∧ colls w' = <[coll_key client db c :=
                          mkCollection (docs col)
                            (indexes col ++ [mkIndex (indexName s o) s])]> (colls w).
Proof.
  intros Hf H Hst. simpl in H.
  apply bind_inv_Ok in H as (ixs & w1 & Hix & H).
  apply coll_indexes_quiet_inv in Hix as [-> (col & Hc & ->)]; [|done].
  exists col. split; [done|].
  destruct (find (named (indexName s o)) (indexes col)) as [same|] eqn:Hfind.
  { destruct (decide (ix_key same = s)); [|done].
    injection H as <- _. done. }
  split; [done|].
  apply bind_inv_Ok in H as (? & w2 & Hcreate & H). injection H as _ <-.
  apply bind_inv_Ok in Hcreate as (? & w3 & Hcreate & H). injection H as _ <-.
  unfold createIndex in Hcreate. rewrite driver_quiet in Hcreate by done.
  rewrite Hc in Hcreate. simpl in Hcreate. rewrite Hfind in Hcreate.
  destruct (find (fun i => bool_decide (ix_key i = s)) (indexes col)); [done|].
  by injection Hcreate as _ <-.
Qed.

Lemma quiet_perform client db op dryRun : quiet (perform client db op dryRun).
Proof.
  destruct op; simpl.
  - apply quiet_bind; [unfold listCollections; quiet_auto|]. intros ?.
    destruct (bool_decide _); [apply quiet_ret|].
    apply quiet_bind; [|intros ?; apply quiet_ret].
    destruct dryRun; [apply quiet_ret|].
    apply quiet_driver. intros w Hw. by destruct (colls w !! _).
  - apply quiet_bind.
    { apply quiet_driver. intros w Hw. by destruct (colls w !! _). }
    intros ?. destruct (find _ _).
    + destruct (decide _); [apply quiet_ret | apply quiet_throw].
    + apply quiet_bind; [|intros ?; apply quiet_ret].
      destruct dryRun; [apply quiet_ret|].
      apply quiet_bind; [|intros ?; apply quiet_ret].
      apply quiet_driver. intros w Hw. cbn beta zeta.
      destruct (find _ _); [by destruct (decide _)|]. by destruct (find _ _).
  - apply quiet_throw.
Qed.

Lemma quiet_execute parsed cid client audit dryRun t0 :
  quiet (execute parsed cid client audit dryRun t0).
Proof.
  unfold execute. apply quiet_try_catch.
  - apply quiet_bind; [apply quiet_perform|]. intros out.
    apply quiet_bind; [|intros ?; apply quiet_keeps; keeps_auto].
    destruct dryRun; [apply quiet_ret|].
    apply quiet_keeps. apply keeps_bind; [keeps_auto|]. intros ?.
    by intros w.
  - intros e.
    apply quiet_bind; [|intros ?; apply quiet_keeps; keeps_auto].
    destruct dryRun; [apply quiet_ret|].
    apply quiet_keeps. apply keeps_bind; [keeps_auto|]. intros ?.
    by intros w.
Qed.


Lemma indexes_at_insertOne k a mk ixs w :
  indexes_at k w = Some ixs → indexes_at k (snd (insertOne a mk w)) = Some ixs.
Proof.
  unfold indexes_at, insertOne. simpl. intros H.
  destruct (decide (k = a)) as [->|Hne].
  - rewrite lookup_insert_eq. simpl. by destruct (colls w !! a).
  - by rewrite lookup_insert_ne.
Qed.

Lemma indexes_at_set_clock k g (w : World) : indexes_at k (set_clock g w) = indexes_at k w.
Proof. done. Qed.

Lemma execute_after_perform parsed cid client audit t0 w out wp :
  perform client (database (target parsed)) (operation parsed) false w = (Ok out, wp) →
  ∃ res mk,
    execute parsed cid client audit false t0 w
    = (Ok res, set_clock (fun t => (t + 1)%Z)
                 (snd (insertOne audit mk (set_clock (fun t => (t + 1)%Z) wp))))
    ∧ cr_status res = o_status out.
Proof.
  intros Hp. unfold execute, try_catch. rewrite (bind_Ok _ _ _ _ _ Hp).
  by eexists _, _.
Qed.

(** C1: for a validated [createIndex] request, [applyChange] resolves the
    effective index name and looks it up among the indexes of the target
    collection: an index of that name whose key specification equals the
    requested one gives [skipped], one with another key specification gives
    [failed]; and after a real run that ended [applied], the identical
    request gives [skipped]. *)
Theorem createIndex_idempotent (req : ChangeRequest) (c : string) (s : Spec)
    (o : option IndexOptions) (opts : ApplyOptions) (w : World) :
  operation req = CreateIndex c s o →
  validate req = [] →
  allowed rt w (uri (target req)) →
  faults w = [] →
  let k := coll_key (client_for w (uri (target req))) (database (target req)) c in
  (∀ col i,
     colls w !! k = Some col →
     find (named (indexName s o)) (indexes col) = Some i →
     ∃ res w',
       applyChange rt req opts w = (Ok res, w')
       ∧ (ix_key i = s → cr_status res = skipped)
       ∧ (ix_key i ≠ s →
          cr_status res = failed
          ∧ cr_message res = "An index with this name already exists but uses different keys."))
  ∧ (∀ r1 w1,
       default false (ao_dryRun opts) = false →
       applyChange rt req opts w = (Ok r1, w1) →
       cr_status r1 = applied →
       ∃ r2 w2, applyChange rt req opts w1 = (Ok r2, w2) ∧ cr_status r2 = skipped).
Proof.
  intros Hop Hv Ha Hf k.
  set (u := uri (target req)) in *. set (client := client_for w u) in *.
  assert (∀ wx col i,
            faults wx = [] → allowed rt wx u → client_for wx u = client →
            colls wx !! k = Some col →
            find (named (indexName s o)) (indexes col) = Some i →
            ∃ res w',
              applyChange rt req opts wx = (Ok res, w')
              ∧ (ix_key i = s → cr_status res = skipped)
              ∧ (ix_key i ≠ s →
                 cr_status res = failed
                 ∧ cr_message res
                   = "An index with this name already exists but uses different keys."))
    as Hexisting.
  { intros wx col i Hfx Hax Hcx Hcol Hfind.
    destruct (applyChange_quiet req opts wx Hv Hax Hfx)
      as (cid & t0 & w0 & E & Hc0 & Hf0 & _).
    fold u in E. rewrite Hcx in E. rewrite E.
    pose proof (perform_index_existing client (database (target req)) c s o
                  (default false (ao_dryRun opts)) col i w0 Hf0) as Hp.
    rewrite Hc0 in Hp. specialize (Hp Hcol Hfind). rewrite <- Hop in Hp.
    destruct (decide (ix_key i = s)) as [Heq|Hne].
    - destruct (execute_of_Ok req cid client
                  (coll_key client (str_or (env_AUDIT_DB wx) "admin") AUDIT_COLLECTION)
                  _ t0 _ _ _ Hp) as (d & w' & ->).
      eexists _, _. split; [done|]. by split.
    - destruct (execute_of_Throw req cid client
                  (coll_key client (str_or (env_AUDIT_DB wx) "admin") AUDIT_COLLECTION)
                  _ t0 _ _ _ Hp) as (d & w' & ->).
      eexists _, _. split; [done|]. by split. }
  split.
  - intros col i Hcol Hfind. by apply (Hexisting w col i).
  - intros r1 w1 Hdry H1 Hst.
    destruct (applyChange_quiet req opts w Hv Ha Hf)
      as (cid & t0 & w0 & E & Hc0 & Hf0 & Hcache0 & _ & Hal0).
    fold u client in E, Hcache0. rewrite E, Hdry in H1.
    set (audit := coll_key client (str_or (env_AUDIT_DB w) "admin") AUDIT_COLLECTION) in *.
    pose proof (quiet_execute req cid client audit false t0 w0 Hf0) as Hf1.
    pose proof (keeps_blind_execute clientCache blind_clientCache req cid client audit
                  false t0 w0) as Hcc1.
    pose proof (keeps_blind_execute _ blind_env_ALLOW req cid client audit
                  false t0 w0) as Hal1.
    rewrite H1 in Hf1, Hcc1, Hal1. simpl in Hf1, Hcc1, Hal1.
    destruct (perform client (database (target req)) (operation req) false w0)
      as [[out|e] wp] eqn:Hp.
    + destruct (execute_after_perform req cid client audit t0 w0 out wp Hp)
        as (res & mk & E1 & Hres).
      rewrite E1 in H1. injection H1 as -> Hw1.
      rewrite Hop in Hp.
      destruct (perform_index_applied client (database (target req)) c s o out w0 wp Hf0 Hp)
        as (col & Hcol & Hnone & Hcolls); [congruence|].
      assert (indexes_at k w1 = Some (indexes col ++ [mkIndex (indexName s o) s])) as Hix.
      { rewrite <- Hw1. rewrite indexes_at_set_clock.
        apply (indexes_at_insertOne k audit mk _ (set_clock (fun t => (t + 1)%Z) wp)).
        rewrite indexes_at_set_clock.
        unfold indexes_at. rewrite Hcolls. unfold k. by rewrite lookup_insert_eq. }
      unfold indexes_at in Hix.
      destruct (colls w1 !! k) as [col1|] eqn:Hcol1; [|done].
      injection Hix as Hix.
      destruct (Hexisting w1 col1 (mkIndex (indexName s o) s)) as (r2 & w2 & E2 & Hs & _).
      * done.
      * unfold allowed in *. by rewrite Hal1, Hal0.
      * unfold client_for. rewrite Hcc1, Hcache0. done.
      * done.
      * rewrite Hix. apply find_app_None; [done|]. unfold named. by apply bool_decide_eq_true.
      * exists r2, w2. split; [done|]. by apply Hs.
    + destruct (execute_of_Throw req cid client audit false t0 w0 e wp Hp) as (d & w' & E1).
      rewrite E1 in H1. injection H1 as <- _. done.
Qed.


(** *** The revert engine *)

Lemma driver_inv_Ok {A} (op : M A) w a w' :
  driver op w = (Ok a, w') →
  ∃ w0, op w0 = (Ok a, w') ∧ colls w0 = colls w ∧ (faults w = [] → w0 = w).
Proof.
  unfold driver. destruct (faults w) as [|[e|] fs] eqn:Hf.
  - intros H. exists w. by repeat split.
  - done.
  - intros H. eexists. split; [exact H|]. by split.
Qed.

(** Without faults, [revertChange] reaches the undo of the latest audit
    record of the change, when there is one. *)
Lemma revertChange_quiet cid ctx w :
  allowed rt w (ctx_uri ctx) → faults w = [] →
  ∃ w0,
    colls w0 = colls w ∧ faults w0 = []
    ∧ revertChange rt cid ctx w
      = match head (newest_first
                      (filter (fun r => ar_changeId r = cid ∧ uri (ar_target r) = ctx_uri ctx)
                              (audit_records (audit_key (client_for w (ctx_uri ctx)) w) w))) with
        | None =>
            (Ok (mkRevert cid failed "No audit entry was found for the requested changeId."
                          None), w0)
        | Some rec =>
            revert_record (client_for w (ctx_uri ctx))
              (audit_key (client_for w (ctx_uri ctx)) w) cid ctx rec w0
        end.
Proof.
  intros Ha Hf.
  set (w1 := set_trace (fun t => t ++ [EvRevert cid (ctx_uri ctx) (ctx_database ctx)]) w).
  destruct (getClient_quiet (ctx_uri ctx) w1 Ha Hf) as (w0 & Hg & Hc & Hf0 & _ & Haud & _).
  exists w0. split; [done|]. split; [done|].
  unfold revertChange. unfold bind at 1. simpl. fold w1.
  rewrite (bind_Ok _ _ _ _ _ Hg).
  unfold auditCollection, find_latest, bind, gets.
  change (client_for w1 (ctx_uri ctx)) with (client_for w (ctx_uri ctx)).
  assert (audit_key (client_for w (ctx_uri ctx)) w0 = audit_key (client_for w (ctx_uri ctx)) w)
    as ->.
  { unfold audit_key. by rewrite Haud. }
  assert (audit_records (audit_key (client_for w (ctx_uri ctx)) w) w0
          = audit_records (audit_key (client_for w (ctx_uri ctx)) w) w) as ->.
  { unfold audit_records, docs_at. by rewrite Hc. }
  by destruct (head _).
Qed.

Lemma update_first_marks id g ds r :
  AuditDoc r ∈ ds → ar_id r = id →
  ∃ r0, AuditDoc (g r0) ∈ update_first id g ds ∧ ar_id r0 = id.
Proof.
  induction ds as [|d ds IH]; intros Hin Hid.
  - by apply elem_of_nil in Hin.
  - simpl. destruct d as [r1|x].
    + destruct (decide (ar_id r1 = id)) as [Heq|Hne].
      * exists r1. split; [left|done].
      * apply elem_of_cons in Hin as [[= ->]|Hin]; [done|].
        destruct (IH Hin Hid) as (r0 & H0 & H1). exists r0. split; [by right|done].
    + apply elem_of_cons in Hin as [?|Hin]; [done|].
      destruct (IH Hin Hid) as (r0 & H0 & H1). exists r0. split; [by right|done].
Qed.

Lemma head_newest_first_elem rs r :
  head (newest_first rs) = Some r → r ∈ rs.
Proof.
  intros H. unfold newest_first in H.
  rewrite <- (merge_sort_Permutation newer_eq rs).
  destruct (merge_sort newer_eq rs); [done|]. injection H as ->. left.
Qed.

Lemma audit_records_elem k w r : r ∈ audit_records k w → AuditDoc r ∈ docs_at k w.
Proof.
  unfold audit_records. rewrite list_elem_of_omap. intros (d & Hd & Ho).
  destruct d; simpl in Ho; by simplify_eq.
Qed.


Lemma countDocuments_quiet k w :
  faults w = [] → countDocuments k w = (Ok (length (docs_at k w)), w).
Proof. intros Hf. unfold countDocuments. by rewrite driver_quiet. Qed.

Lemma dropCollection_quiet k col w :
  faults w = [] → colls w !! k = Some col →
  dropCollection k w = (Ok tt, set_colls (delete k) w).
Proof. intros Hf Hc. unfold dropCollection. rewrite driver_quiet by done. by rewrite Hc. Qed.

(** *** C5 *)

(** C5: when the latest audit record of a change is a [createCollection] and
    the collection holds at least one document, [revertChange] answers
    [failed] with the message that the collection is not empty and changes
    no collection, so nothing is dropped and the audit record keeps its
    status; when the collection exists and is empty, it is dropped and the
    audit record with that [_id] is marked [reverted]. *)
Theorem revert_createCollection_guard (cid : string) (ctx : RevertContext) (w : World)
    (rec : AuditRecord) (c : string) (o : option JsonRecord) :
  allowed rt w (ctx_uri ctx) →
  faults w = [] →
  let client := client_for w (ctx_uri ctx) in
  let audit := audit_key client w in
  let k := coll_key client (default (database (ar_target rec)) (truthy (ctx_database ctx))) c in
  head (newest_first
          (filter (fun r => ar_changeId r = cid ∧ uri (ar_target r) = ctx_uri ctx)
                  (audit_records audit w))) = Some rec →
  ar_operation rec = CreateCollection c o →
  (docs_at k w ≠ [] →
   ∃ w',
     revertChange rt cid ctx w
     = (Ok (mkRevert cid failed "Cannot drop the collection because it is not empty."
                     (Some (changeRecord rec))), w')
     ∧ colls w' = colls w)
  ∧ (∀ col,
       colls w !! k = Some col → docs col = [] →
       ∃ t w',
         revertChange rt cid ctx w
         = (Ok (mkRevert cid reverted "Collection dropped successfully."
                         (Some (changeRecord rec))), w')
         ∧ colls w' !! k = None
         ∧ docs_at audit w'
           = update_first (ar_id rec) (mark_reverted t "Collection dropped successfully.")
                          (docs_at audit w)
         ∧ ∃ r0, AuditDoc (mark_reverted t "Collection dropped successfully." r0)
                   ∈ docs_at audit w'
                 ∧ ar_id r0 = ar_id rec).
Proof.
  intros Ha Hf client audit k Hhead Hop.
  destruct (revertChange_quiet cid ctx w Ha Hf) as (w0 & Hc0 & Hf0 & E).
  fold client audit in E. rewrite Hhead in E. rewrite E. clear E.
  assert (∀ k', docs_at k' w0 = docs_at k' w) as Hd0.
  { intros k'. unfold docs_at. by rewrite Hc0. }
  unfold revert_record. rewrite Hop. fold k.
  rewrite (bind_Ok _ _ _ _ _ (countDocuments_quiet k w0 Hf0)). rewrite Hd0.
  split.
  - intros Hne. exists w0. split; [|done].
    rewrite bool_decide_eq_true_2; [done|].
    destruct (docs_at k w); [done | simpl; lia].
  - intros col Hcol Hdocs.
    assert (docs_at k w = []) as Hk. { unfold docs_at. by rewrite Hcol. }
    rewrite Hk. simpl.
    assert (AuditDoc rec ∈ docs_at audit w) as Hin.
    { apply audit_records_elem. apply head_newest_first_elem in Hhead.
      by apply list_elem_of_filter in Hhead as [_ ?]. }
    assert (k ≠ audit) as Hka.
    { intros Heq. rewrite <- Heq, Hk in Hin. by apply elem_of_nil in Hin. }
    destruct (colls w !! audit) as [ca|] eqn:Hca; cycle 1.
    { unfold docs_at in Hin. rewrite Hca in Hin. by apply elem_of_nil in Hin. }
    rewrite <- Hc0 in Hcol.
    unfold try_catch. rewrite (bind_Ok _ _ _ _ _ (dropCollection_quiet k col w0 Hf0 Hcol)).
    unfold bind, Date_now, updateOne, modify, ret. simpl.
    eexists _, _. split; [reflexivity|]. unfold docs_at. simpl.
    rewrite lookup_delete_ne by done. rewrite Hc0, Hca.
    rewrite lookup_insert_ne by done. rewrite lookup_delete_eq.
    split; [done|]. rewrite lookup_insert_eq. simpl. split; [done|].
    apply update_first_marks with rec; [|done].
    unfold docs_at in Hin. by rewrite Hca in Hin.
Qed.


(** *** C6 *)

Lemma find_filter_name n (ixs : list Index) :
  find (named n) (filter (fun i => ix_name i ≠ n) ixs) = None.
Proof.
  induction ixs as [|i ixs IH]; [done|].
  rewrite filter_cons. destruct (decide (ix_name i ≠ n)) as [Hne|Heq]; [|done].
  simpl. unfold named at 1. by rewrite bool_decide_eq_false_2.
Qed.

Lemma find_named_None n (ixs : list Index) i :
  find (named n) ixs = None → i ∈ ixs → ix_name i ≠ n.
Proof.
  induction ixs as [|j ixs IH]; intros Hf Hin.
  - by apply elem_of_nil in Hin.
  - simpl in Hf. destruct (named n j) eqn:Hj; [done|].
    apply elem_of_cons in Hin as [->|Hin]; [|by apply IH].
    unfold named in Hj. by apply bool_decide_eq_false in Hj.
Qed.

(** A revert of a recorded [createIndex] that answers [reverted] has removed
    every index of the effective name from the collection. *)
Lemma revert_record_index_dropped client audit cid ctx rec c s o w rr w' col :
  ar_operation rec = CreateIndex c s o →
  revert_record client audit cid ctx rec w = (Ok rr, w') →
  rr_status rr = reverted →
  colls w' !! coll_key client (default (database (ar_target rec)) (truthy (ctx_database ctx))) c
  = Some col →
  find (named (indexName s o)) (indexes col) = None.
Proof.
  intros Hop H Hst Hcol. unfold revert_record in H. rewrite Hop in H.
  set (k := coll_key client _ c) in *.
  apply try_catch_inv in H as [(a & H & [= <-])|(e & w1 & _ & H)]; cycle 1.
  { injection H as <- _. done. }
  apply bind_inv_Ok in H as (? & w1 & Hdrop & H).
  apply bind_inv_Ok in H as (now & w2 & Hnow & H). injection Hnow as <- <-.
  apply bind_inv_Ok in H as (? & w3 & Hupd & H). injection H as _ <-.
  unfold updateOne, modify in Hupd. injection Hupd as _ <-.
  apply driver_inv_Ok in Hdrop as (w0 & Hdrop & Hc0 & _).
  destruct (colls w0 !! k) as [c0|] eqn:Hk; [|done].
  destruct (decide (indexName s o = "_id_")); [done|].
  destruct (find (named (indexName s o)) (indexes c0)); [|done].
  injection Hdrop as _ <-.
  simpl in Hcol.
  destruct (decide (k = audit)) as [Heq|Hne].
  - rewrite <- Heq in Hcol. rewrite lookup_insert_eq in Hcol.
    rewrite lookup_insert_eq in Hcol. injection Hcol as <-.
    simpl. apply find_filter_name.
  - rewrite (lookup_insert_ne _ k audit) in Hcol by done.
    destruct (colls w0 !! audit) as [ca|].
    + rewrite lookup_insert_ne in Hcol by done. rewrite lookup_insert_eq in Hcol.
      injection Hcol as <-. apply find_filter_name.
    + rewrite lookup_insert_eq in Hcol. injection Hcol as <-. apply find_filter_name.
Qed.

(** C6, as the code has it: without an explicit [options.name] the effective
    index name is ["idx_"] followed by the field names of the spec in the
    order of the spec itself, joined by ["_"]; [applyChange] plans and
    creates the index under that name and [revertChange] drops the index of
    that name, so the name depends on the spec alone. *)
Theorem indexName_in_spec_order (s : Spec) :
  indexName s None = "idx_" +:+ join "_" (map fst s)
  ∧ (∀ client db c dryRun w out w',
       perform client db (CreateIndex c s None) dryRun w = (Ok out, w') →
       o_revertPlan out = Some (dropIndex_plan c ("idx_" +:+ join "_" (map fst s))))
  ∧ (∀ client db c w out w',
       faults w = [] →
       perform client db (CreateIndex c s None) false w = (Ok out, w') →
       o_status out = applied →
       ∃ col, colls w' !! coll_key client db c = Some col
              ∧ mkIndex ("idx_" +:+ join "_" (map fst s)) s ∈ indexes col)
  ∧ (∀ client audit cid ctx rec c w rr w' col i,
       ar_operation rec = CreateIndex c s None →
       revert_record client audit cid ctx rec w = (Ok rr, w') →
       rr_status rr = reverted →
       colls w' !! coll_key client (default (database (ar_target rec))
                                            (truthy (ctx_database ctx))) c = Some col →
       i ∈ indexes col →
       ix_name i ≠ "idx_" +:+ join "_" (map fst s)).
Proof.
  split; [done|]. split; [|split].
  - intros client db c dryRun w out w' H. simpl in H.
    apply bind_inv_Ok in H as (ixs & w1 & _ & H).
    destruct (find _ ixs) as [same|].
    + destruct (decide (ix_key same = s)); [|done]. by injection H as <- _.
    + apply bind_inv_Ok in H as (? & w2 & _ & H). by injection H as <- _.
  - intros client db c w out w' Hf H Hst.
    destruct (perform_index_applied client db c s None out w w' Hf H Hst)
      as (col & Hcol & _ & Hcolls).
    eexists. rewrite Hcolls, lookup_insert_eq. split; [done|]. simpl.
    apply elem_of_app. right. left.
  - intros client audit cid ctx rec c w rr w' col i Hop H Hst Hcol Hin.
    pose proof (revert_record_index_dropped client audit cid ctx rec c s None w rr w' col
                  Hop H Hst Hcol) as Hnone.
    by apply (find_named_None _ (indexes col)).
Qed.


(** *** C7 *)

#[local] Instance newer_eq_trans : Transitive newer_eq.
Proof. intros a b c. unfold newer_eq. lia. Qed.

#[local] Instance newer_eq_total : Total newer_eq.
Proof. intros a b. unfold newer_eq. lia. Qed.







(** *** The batch orchestrator *)

Lemma revert_calls_log_other ev (w : World) :
  is_revert ev = false →
  revert_calls (set_trace (fun t => t ++ [ev]) w) = revert_calls w.
Proof.
  intros H. unfold revert_calls. simpl. rewrite List.filter_app. simpl.
  rewrite H. apply app_nil_r.
Qed.

Lemma revert_calls_log_revert ev (w : World) :
  is_revert ev = true →
  revert_calls (set_trace (fun t => t ++ [ev]) w) = revert_calls w ++ [ev].
Proof.
  intros H. unfold revert_calls. simpl. rewrite List.filter_app. simpl. by rewrite H.
Qed.

Lemma keeps_revert_calls_getClient u : keeps revert_calls (getClient rt u).
Proof.
  unfold getClient. apply keeps_bind.
  { unfold check_allow. keeps_auto. }
  intros _. unfold cached_or_connect. apply keeps_bind; [apply keeps_gets|].
  intros [c|]; [apply keeps_ret|].
  apply keeps_bind.
  - unfold connect. apply keeps_bind.
    + intros w. by apply revert_calls_log_other.
    + intros _. apply keeps_blind_driver; [apply blind_revert_calls | apply keeps_ret].
  - intros c. apply keeps_bind; [by intros w | intros ?; apply keeps_ret].
Qed.

Lemma keeps_revert_calls_applyChange req opts : keeps revert_calls (applyChange rt req opts).
Proof.
  unfold applyChange.
  apply keeps_bind. { intros w. by apply revert_calls_log_other. }
  intros _. apply keeps_bind; [apply keeps_blind_Date_now, blind_revert_calls|].
  intros t0. apply keeps_bind; [apply keeps_parse|].
  intros parsed. apply keeps_bind.
  { destruct (truthy _); [apply keeps_ret|].
    apply keeps_blind_newChangeId, blind_revert_calls. }
  intros cid. apply keeps_bind; [apply keeps_revert_calls_getClient|].
  intros client. apply keeps_bind; [apply keeps_gets|].
  intros audit. apply keeps_blind_execute, blind_revert_calls.
Qed.

Lemma keeps_revert_calls_attempt dryRun ci : keeps revert_calls (attempt rt dryRun ci).
Proof.
  unfold attempt. apply keeps_bind.
  - destruct (truthy _); [apply keeps_ret|].
    apply keeps_bind; [apply keeps_blind_newChangeId, blind_revert_calls|].
    intros ?. apply keeps_ret.
  - intros c. apply keeps_revert_calls_applyChange.
Qed.

(** One call of the revert engine is one entry of the log, whatever it
    answers. *)
Lemma revert_calls_revertChange cid ctx w :
  revert_calls (snd (revertChange rt cid ctx w))
  = revert_calls w ++ [EvRevert cid (ctx_uri ctx) (ctx_database ctx)].
Proof.
  unfold revertChange. unfold bind at 1. simpl.
  set (w1 := set_trace _ w).
  assert (keeps revert_calls
            (bind (getClient rt (ctx_uri ctx)) (fun client =>
             bind (auditCollection client) (fun audit =>
             bind (find_latest audit cid (ctx_uri ctx)) (fun found =>
               match found with
               | Some rec => revert_record client audit cid ctx rec
               | None =>
                   ret (mkRevert cid failed
                          "No audit entry was found for the requested changeId." None)
               end)))))
    as Hk.
  { apply keeps_bind; [apply keeps_revert_calls_getClient|]. intros client.
    apply keeps_bind; [apply keeps_gets|]. intros audit.
    apply keeps_bind; [apply keeps_gets|]. intros [rec|]; [|apply keeps_ret].
    apply keeps_blind_revert_record, blind_revert_calls. }
  rewrite (Hk w1). unfold w1. by apply revert_calls_log_revert.
Qed.

Lemma swallow_spec {A} (m : M A) w :
  try_catch (bind m (fun _ => ret tt)) (fun _ => ret tt) w = (Ok tt, snd (m w)).
Proof. unfold try_catch, bind. by destruct (m w) as [[a|e] w1]. Qed.

(** The compensation loop calls the revert engine once for each entry, in
    the order given, and always completes. *)
Lemma rollback_spec todo w :
  fst (rollback rt todo w) = Ok tt
  ∧ revert_calls (snd (rollback rt todo w)) = revert_calls w ++ map revert_event todo.
Proof.
  revert w. induction todo as [|a todo IH]; intros w; simpl.
  - split; [done|]. by rewrite app_nil_r.
  - rewrite (bind_Ok _ _ _ _ _ (swallow_spec _ w)).
    destruct (IH (snd (revertChange rt (ap_changeId a)
                         (mkCtx (uri (ap_target a)) (Some (database (ap_target a)))) w)))
      as [IH1 IH2].
    split; [done|]. rewrite IH2, revert_calls_revertChange. by rewrite <- app_assoc.
Qed.


(** What a completed run of the loop has done. *)
Lemma applyBatch_loop_spec stopOnError dryRun changes :
  ∀ i results done w r w',
    applyBatch_loop rt stopOnError dryRun changes i results done w = (Ok r, w') →
    ∃ rs,
      br_results r = results ++ rs
      ∧ ((br_status r = ok ∧ br_failedAt r = None ∧ length rs = length changes
          ∧ revert_calls w' = revert_calls w)
         ∨ (br_status r = rolled_back ∧ stopOnError = true ∧ dryRun = false
            ∧ ∃ pre res,
                rs = pre ++ [res] ∧ cr_status res = failed
                ∧ br_failedAt r = Some (i + length pre)
                ∧ Forall (fun x => cr_status x ≠ failed) pre
                ∧ revert_calls w'
                  = revert_calls w
                    ++ map revert_event (rev (done ++ applied_entries changes pre)))).
Proof.
  induction changes as [|ci rest IH]; intros i results done w r w' H; simpl in H.
  - injection H as <- <-. exists []. split; [by rewrite app_nil_r|]. left. by repeat split.
  - apply bind_inv_Ok in H as (res & w1 & Hatt & H).
    pose proof (keeps_revert_calls_attempt dryRun ci w) as Hk.
    rewrite Hatt in Hk. simpl in Hk.
    destruct (bool_decide (cr_status res = failed) && stopOnError && negb dryRun) eqn:Hcond.
    + apply andb_true_iff in Hcond as [Hcond Hdry].
      apply andb_true_iff in Hcond as [Hfail Hstop].
      apply bool_decide_eq_true in Hfail. apply negb_true_iff in Hdry.
      apply bind_inv_Ok in H as (? & w2 & Hroll & H). injection H as <- <-.
      destruct (rollback_spec (rev done) w1) as [_ Hcalls].
      rewrite Hroll in Hcalls. simpl in Hcalls.
      exists [res]. split; [done|]. right. repeat split; try done.
      exists [], res. simpl. rewrite app_nil_r, Nat.add_0_r.
      repeat split; try done. by rewrite Hcalls, Hk.
    + apply IH in H as (rs & Hres & Hcase).
      exists (res :: rs). split; [by rewrite Hres, <- app_assoc|].
      destruct Hcase as [(Hok & Hat & Hlen & Hcalls)|(Hrb & Hstop & Hdry & pre & res' & Hrs & Hfail & Hat & Hall & Hcalls)].
      * left. repeat split; try done; [simpl; by rewrite Hlen | by rewrite Hcalls].
      * right. repeat split; try done. exists (res :: pre), res'.
        rewrite Hstop, Hdry in Hcond. simpl in Hcond.
        rewrite !andb_true_r in Hcond. apply bool_decide_eq_false in Hcond.
        split; [by rewrite Hrs|]. split; [done|].
        split; [rewrite Hat; f_equal; simpl; lia|].
        split; [by constructor|].
        rewrite Hcalls, Hk. do 3 f_equal. rewrite Hdry. simpl. rewrite andb_true_r.
        destruct (bool_decide (cr_status res = applied)); [by rewrite <- app_assoc | done].
Qed.




Lemma keeps_revert_calls_attempts dryRun cs : keeps revert_calls (attempts rt dryRun cs).
Proof.
  induction cs as [|c cs IH]; simpl; [apply keeps_ret|].
  apply keeps_bind; [apply keeps_revert_calls_attempt|]. intros r.
  apply keeps_bind; [apply IH | intros ?; apply keeps_ret].
Qed.


(** *** C8 *)


(** *** C2 *)



(** ** Further properties of the change executor *)

(** The dispatch of a simulated run makes the same checks as the dispatch of
    a real run from the same world. *)
Lemma perform_dry_of_real client db op w o w' :
  perform client db op false w = (Ok o, w') →
  ∃ w'', perform client db op true w = (Ok o, w'').
Proof.
  destruct op as [n opt|c s opt|ty]; simpl; intros H.
  - apply bind_inv_Ok in H as (found & w1 & Hl & H). rewrite (bind_Ok _ _ _ _ _ Hl).
    destruct (bool_decide (0 < length found)); [by eexists|].
    apply bind_inv_Ok in H as (? & w2 & _ & H). injection H as <- _. by eexists.
  - apply bind_inv_Ok in H as (ixs & w1 & Hl & H). rewrite (bind_Ok _ _ _ _ _ Hl).
    destruct (find _ ixs) as [same|].
    + destruct (decide (ix_key same = s)); [by eexists | done].
    + apply bind_inv_Ok in H as (? & w2 & _ & H). injection H as <- _. by eexists.
  - done.
Qed.

Lemma perform_real_of_dry_throw client db op w e w' :
  perform client db op true w = (Throw e, w') →
  perform client db op false w = (Throw e, w').
Proof.
  destruct op as [n opt|c s opt|ty]; simpl; intros H; [| |done].
  - apply bind_inv in H as [(found & w1 & Hl & H)|(e' & Hl & [= <-])].
    + by destruct (bool_decide (0 < length found)).
    + by apply bind_Throw.
  - apply bind_inv in H as [(ixs & w1 & Hl & H)|(e' & Hl & [= <-])].
    + rewrite (bind_Ok _ _ _ _ _ Hl). destruct (find _ ixs) as [same|]; [|done].
      by destruct (decide (ix_key same = s)).
    + by apply bind_Throw.
Qed.

Lemma perform_real_of_dry_skipped client db op w o w' :
  perform client db op true w = (Ok o, w') → o_status o = skipped →
  perform client db op false w = (Ok o, w').
Proof.
  destruct op as [n opt|c s opt|ty]; simpl; intros H Hs; [| |done].
  - apply bind_inv_Ok in H as (found & w1 & Hl & H). rewrite (bind_Ok _ _ _ _ _ Hl).
    destruct (bool_decide (0 < length found)); [done|].
    injection H as <- _. done.
  - apply bind_inv_Ok in H as (ixs & w1 & Hl & H). rewrite (bind_Ok _ _ _ _ _ Hl).
    destruct (find _ ixs) as [same|].
    + by destruct (decide (ix_key same = s)).
    + injection H as <- _. done.
Qed.

(** X1: the simulated execution predicts the real one from the same world:
    when the real result is not [failed], the simulated result has the same
    status, message and revert plan; and a simulated [skipped] or [failed]
    is what the real run answers too.  Only a simulated [applied] can still
    fail for real, when the creation itself throws. *)
Theorem simulation_predicts (parsed : ChangeRequest) (cid : string) (client : MongoClient)
    (audit : CollKey) (t0 : Z) (w wr wd : World) (rr rd : ChangeResult) :
  execute parsed cid client audit false t0 w = (Ok rr, wr) →
  execute parsed cid client audit true t0 w = (Ok rd, wd) →
  (cr_status rr ≠ failed ∨ cr_status rd ≠ applied) →
  cr_status rd = cr_status rr
  ∧ cr_message rd = cr_message rr
  ∧ cr_revertPlan rd = cr_revertPlan rr
  ∧ cr_changeId rd = cr_changeId rr.
Proof.
  intros Hr Hd Hcase.
  destruct (perform client (database (target parsed)) (operation parsed) false w)
    as [[o|e] w1] eqn:Hp.
  - destruct (perform_dry_of_real _ _ _ _ _ _ Hp) as (w2 & Hp').
    destruct (execute_of_Ok parsed cid client audit false t0 w o w1 Hp) as (d1 & w3 & E1).
    destruct (execute_of_Ok parsed cid client audit true t0 w o w2 Hp') as (d2 & w4 & E2).
    rewrite E1 in Hr. rewrite E2 in Hd. injection Hr as <- _. injection Hd as <- _. done.
  - destruct (execute_of_Throw parsed cid client audit false t0 w e w1 Hp) as (d1 & w3 & E1).
    rewrite E1 in Hr. injection Hr as <- _.
    destruct (perform client (database (target parsed)) (operation parsed) true w)
      as [[o|e'] w2] eqn:Hp'.
    + destruct (execute_of_Ok parsed cid client audit true t0 w o w2 Hp') as (d2 & w4 & E2).
      rewrite E2 in Hd. injection Hd as <- _. simpl in *.
      destruct (perform_outcome _ _ _ _ _ _ _ Hp') as [[Ha|Hs] _].
      * destruct Hcase as [?|?]; done.
      * rewrite (perform_real_of_dry_skipped _ _ _ _ _ _ Hp' Hs) in Hp. done.
    + rewrite (perform_real_of_dry_throw _ _ _ _ _ _ Hp') in Hp. injection Hp as -> _.
      destruct (execute_of_Throw parsed cid client audit true t0 w e w2 Hp') as (d2 & w4 & E2).
      rewrite E2 in Hd. injection Hd as <- _. done.
Qed.


Lemma driver_throw_keeps {A} (op : M A) w e w' :
  (∀ w0 e0 w1, op w0 = (Throw e0, w1) → colls w1 = colls w0) →
  driver op w = (Throw e, w') → colls w' = colls w.
Proof.
  intros Hop. unfold driver. destruct (faults w) as [|[e0|] fs].
  - apply Hop.
  - by intros [= _ <-].
  - intros H. by apply Hop in H.
Qed.

Lemma createCollection_throw_keeps k o w e w' :
  createCollection k o w = (Throw e, w') → colls w' = colls w.
Proof.
  apply driver_throw_keeps. intros w0 e0 w1.
  destruct (colls w0 !! k); [by intros [= _ <-] | done].
Qed.

Lemma createIndex_throw_keeps k s n w e w' :
  createIndex k s n w = (Throw e, w') → colls w' = colls w.
Proof.
  apply driver_throw_keeps. intros w0 e0 w1. cbn beta zeta.
  destruct (find (named n) _) as [i|].
  - destruct (decide _); [done | by intros [= _ <-]].
  - destruct (find _ _); [by intros [= _ <-] | done].
Qed.

(** A dispatch that does not end [applied] has changed no collection. *)
Lemma perform_keeps_unless_applied client db op dryRun w r w' :
  perform client db op dryRun w = (r, w') →
  (∀ o, r = Ok o → o_status o ≠ applied) →
  colls w' = colls w.
Proof.
  destruct op as [n opt|c s opt|ty]; simpl; intros H Hna.
  - apply bind_inv in H as [(found & w1 & Hl & H)|(e & Hl & ->)]; cycle 1.
    { pose proof (keeps_colls_listCollections (coll_key client db n) w) as Hk.
      by rewrite Hl in Hk. }
    pose proof (keeps_colls_listCollections (coll_key client db n) w) as Hk.
    rewrite Hl in Hk. simpl in Hk.
    destruct (bool_decide (0 < length found)); [by injection H as _ <-|].
    apply bind_inv in H as [(? & w2 & Hc & H)|(e & Hc & ->)].
    + injection H as <- _. by specialize (Hna _ eq_refl).
    + destruct dryRun; [done|]. apply createCollection_throw_keeps in Hc. congruence.
  - apply bind_inv in H as [(ixs & w1 & Hl & H)|(e & Hl & ->)]; cycle 1.
    { pose proof (keeps_colls_coll_indexes (coll_key client db c) w) as Hk.
      by rewrite Hl in Hk. }
    pose proof (keeps_colls_coll_indexes (coll_key client db c) w) as Hk.
    rewrite Hl in Hk. simpl in Hk.
    destruct (find _ ixs) as [same|].
    + destruct (decide (ix_key same = s)); by injection H as _ <-.
    + apply bind_inv in H as [(? & w2 & Hc & H)|(e & Hc & ->)].
      * injection H as <- _. by specialize (Hna _ eq_refl).
      * destruct dryRun; [done|].
        apply bind_inv in Hc as [(? & w3 & Hc & H)|(e' & Hc & _)]; [done|].
        apply createIndex_throw_keeps in Hc. congruence.
  - by injection H as _ <-.
Qed.

Lemma insertOne_other a mk k (w : World) :
  k ≠ a → colls (snd (insertOne a mk w)) !! k = colls w !! k.
Proof. intros Hne. unfold insertOne. simpl. by rewrite lookup_insert_ne. Qed.

Lemma colls_after_audit a mk (wp : World) k :
  k ≠ a →
  colls (set_clock (fun t => (t + 1)%Z)
           (snd (insertOne a mk (set_clock (fun t => (t + 1)%Z) wp)))) !! k
  = colls wp !! k.
Proof. intros Hne. unfold insertOne. simpl. by rewrite lookup_insert_ne. Qed.

Lemma execute_after_throw parsed cid client audit t0 w e wp :
  perform client (database (target parsed)) (operation parsed) false w = (Throw e, wp) →
  ∃ res mk,
    execute parsed cid client audit false t0 w
    = (Ok res, set_clock (fun t => (t + 1)%Z)
                 (snd (insertOne audit mk (set_clock (fun t => (t + 1)%Z) wp))))
    ∧ cr_status res = failed.
Proof.
  intros Hp. unfold execute, try_catch. rewrite (bind_Throw _ _ _ _ _ Hp).
  by eexists _, _.
Qed.

Lemma execute_keeps_unless_applied parsed cid client audit dryRun t0 w res w' k :
  execute parsed cid client audit dryRun t0 w = (Ok res, w') →
  cr_status res ≠ applied → k ≠ audit →
  colls w' !! k = colls w !! k.
Proof.
  intros H Hna Hk. destruct dryRun.
  - pose proof (keeps_colls_execute_dry parsed cid client audit t0 w) as Hc.
    rewrite H in Hc. simpl in Hc. by rewrite Hc.
  - destruct (perform client (database (target parsed)) (operation parsed) false w)
      as [[o|e] wp] eqn:Hp.
    + destruct (execute_after_perform parsed cid client audit t0 w o wp Hp)
        as (res' & mk & E & Hs).
      rewrite E in H. injection H as Hres Hw. rewrite <- Hw.
      etrans; [apply (colls_after_audit audit mk wp k Hk)|].
      rewrite (perform_keeps_unless_applied _ _ _ _ _ _ _ Hp); [done|].
      intros o' [= <-]. congruence.
    + destruct (execute_after_throw parsed cid client audit t0 w e wp Hp)
        as (res' & mk & E & Hs).
      rewrite E in H. injection H as Hres Hw. rewrite <- Hw.
      etrans; [apply (colls_after_audit audit mk wp k Hk)|].
      by rewrite (perform_keeps_unless_applied _ _ _ _ _ _ _ Hp).
Qed.

(** X2: a call of [applyChange] whose result is [skipped] or [failed] has
    changed no collection other than the audit collection of its client:
    nothing is created on the way to a refusal. *)
Theorem applyChange_touches_targets_only_when_applied (req : ChangeRequest)
    (opts : ApplyOptions) (w w' : World) (res : ChangeResult) :
  applyChange rt req opts w = (Ok res, w') →
  cr_status res ≠ applied →
  ∃ client,
    clientCache w' !! uri (target req) = Some client
    ∧ ∀ k, k ≠ audit_key client w → colls w' !! k = colls w !! k.
Proof.
  intros H Hna.
  apply applyChange_inv in H as [(e & ? & _)|(cid & client & t0 & w0 & H)]; [done|].
  destruct H as (_ & _ & Hcache & Hc & _ & _ & _ & _ & H).
  exists client. split.
  - pose proof (keeps_blind_execute clientCache blind_clientCache req cid client
                  (coll_key client (str_or (env_AUDIT_DB w) "admin") AUDIT_COLLECTION)
                  (default false (ao_dryRun opts)) t0 w0) as Hcc.
    rewrite H in Hcc. simpl in Hcc. by rewrite Hcc.
  - intros k Hk. rewrite <- Hc.
    by apply (execute_keeps_unless_applied req cid client _ _ t0 w0 res w' k H).
Qed.


Lemma listCollections_quiet k w :
  faults w = [] →
  listCollections k w = (Ok (match colls w !! k with Some _ => [snd k] | None => [] end), w).
Proof. intros Hf. unfold listCollections. by rewrite driver_quiet. Qed.

Lemma perform_collection_existing client db c o dryRun w :
  faults w = [] → is_Some (colls w !! coll_key client db c) →
  perform client db (CreateCollection c o) dryRun w
  = (Ok (mkOutcome skipped "Change skipped because the collection already exists."
                   (Some (dropCollection_plan c true))), w).
Proof.
  intros Hf [col Hc]. simpl.
  rewrite (bind_Ok _ _ _ _ _ (listCollections_quiet _ w Hf)). by rewrite Hc.
Qed.

Lemma perform_collection_applied client db c o out w w' :
  faults w = [] →
  perform client db (CreateCollection c o) false w = (Ok out, w') →
  o_status out = applied →
  colls w !! coll_key client db c = None
  ∧ colls w' = <[coll_key client db c := newCollection]> (colls w)
  ∧ o_revertPlan out = Some (dropCollection_plan c true).
Proof.
  intros Hf H Hst. simpl in H.
  rewrite (bind_Ok _ _ _ _ _ (listCollections_quiet _ w Hf)) in H.
  destruct (colls w !! coll_key client db c) as [col|] eqn:Hc.
  { simpl in H. injection H as <- _. done. }
  simpl in H. split; [done|].
  apply bind_inv_Ok in H as (? & w2 & Hcreate & H). injection H as <- <-.
  unfold createCollection in Hcreate. rewrite driver_quiet in Hcreate by done.
  rewrite Hc in Hcreate. by injection Hcreate as _ <-.
Qed.

Lemma is_Some_insertOne k a mk (w : World) :
  is_Some (colls w !! k) → is_Some (colls (snd (insertOne a mk w)) !! k).
Proof.
  intros H. unfold insertOne. simpl. destruct (decide (k = a)) as [->|Hne].
  - rewrite lookup_insert_eq. by eexists.
  - by rewrite lookup_insert_ne.
Qed.

(** X3: for a validated [createCollection] request with no driver fault, an
    existing collection gives [skipped] with the plan to drop it when empty;
    and after a real run that ended [applied], the identical request gives
    [skipped] with the same revert plan. *)
Theorem createCollection_idempotent (req : ChangeRequest) (c : string)
    (o : option JsonRecord) (opts : ApplyOptions) (w : World) :
  operation req = CreateCollection c o →
  validate req = [] →
  allowed rt w (uri (target req)) →
  faults w = [] →
  (is_Some (colls w !! coll_key (client_for w (uri (target req))) (database (target req)) c) →
   ∃ res w',
     applyChange rt req opts w = (Ok res, w')
     ∧ cr_status res = skipped
     ∧ cr_revertPlan res = Some (Some (dropCollection_plan c true)))
  ∧ (∀ r1 w1,
       default false (ao_dryRun opts) = false →
       applyChange rt req opts w = (Ok r1, w1) →
       cr_status r1 = applied →
       cr_revertPlan r1 = Some (Some (dropCollection_plan c true))
       ∧ ∃ r2 w2,
           applyChange rt req opts w1 = (Ok r2, w2)
           ∧ cr_status r2 = skipped
           ∧ cr_revertPlan r2 = cr_revertPlan r1).
Proof.
  intros Hop Hv Ha Hf.
  set (u := uri (target req)) in *. set (client := client_for w u) in *.
  set (k := coll_key client (database (target req)) c).
  assert (∀ wx,
            faults wx = [] → allowed rt wx u → client_for wx u = client →
            is_Some (colls wx !! k) →
            ∃ res w',
              applyChange rt req opts wx = (Ok res, w')
              ∧ cr_status res = skipped
              ∧ cr_revertPlan res = Some (Some (dropCollection_plan c true)))
    as Hexisting.
  { intros wx Hfx Hax Hcx Hsome.
    destruct (applyChange_quiet req opts wx Hv Hax Hfx)
      as (cid & t0 & w0 & E & Hc0 & Hf0 & _).
    fold u in E. rewrite Hcx in E. rewrite E.
    pose proof (perform_collection_existing client (database (target req)) c o
                  (default false (ao_dryRun opts)) w0 Hf0) as Hp.
    rewrite Hc0 in Hp. specialize (Hp Hsome). rewrite <- Hop in Hp.
    destruct (execute_of_Ok req cid client
                (coll_key client (str_or (env_AUDIT_DB wx) "admin") AUDIT_COLLECTION)
                _ t0 _ _ _ Hp) as (d & w' & ->).
    by eexists _, _. }
  split; [by apply Hexisting|].
  intros r1 w1 Hdry H1 Hst.
  destruct (applyChange_quiet req opts w Hv Ha Hf)
    as (cid & t0 & w0 & E & Hc0 & Hf0 & Hcache0 & _ & Hal0).
  fold u client in E, Hcache0. rewrite E, Hdry in H1.
  set (audit := coll_key client (str_or (env_AUDIT_DB w) "admin") AUDIT_COLLECTION) in *.
  pose proof (quiet_execute req cid client audit false t0 w0 Hf0) as Hf1.
  pose proof (keeps_blind_execute clientCache blind_clientCache req cid client audit
                false t0 w0) as Hcc1.
  pose proof (keeps_blind_execute _ blind_env_ALLOW req cid client audit
                false t0 w0) as Hal1.
  rewrite H1 in Hf1, Hcc1, Hal1. simpl in Hf1, Hcc1, Hal1.
  destruct (perform client (database (target req)) (operation req) false w0)
    as [[out|e] wp] eqn:Hp.
  - destruct (execute_of_Ok req cid client audit false t0 w0 out wp Hp) as (d & wq & E0).
    destruct (execute_after_perform req cid client audit t0 w0 out wp Hp)
      as (res & mk & E1 & Hres).
    rewrite E1 in H1. injection H1 as -> Hw1.
    rewrite E0 in E1. injection E1 as E1 _.
    rewrite Hop in Hp.
    destruct (perform_collection_applied client (database (target req)) c o out w0 wp Hf0 Hp)
      as (Hnone & Hcolls & Hplan); [congruence|].
    assert (cr_revertPlan r1 = Some (Some (dropCollection_plan c true))) as Hplan1.
    { rewrite <- E1. simpl. by rewrite Hplan. }
    split; [done|].
    destruct (Hexisting w1) as (r2 & w2 & E2 & Hs & Hp2).
    + done.
    + unfold allowed in *. by rewrite Hal1, Hal0.
    + unfold client_for. by rewrite Hcc1, Hcache0.
    + rewrite <- Hw1. change (colls (set_clock ?f ?x)) with (colls x).
      apply (is_Some_insertOne k audit mk (set_clock (fun t => (t + 1)%Z) wp)).
      change (colls (set_clock ?f ?x)) with (colls x).
      rewrite Hcolls. unfold k. rewrite lookup_insert_eq. by eexists.
    + exists r2, w2. split; [done|]. split; [done|]. congruence.
  - destruct (execute_of_Throw req cid client audit false t0 w0 e wp Hp) as (d & w' & E1).
    rewrite E1 in H1. injection H1 as <- _. done.
Qed.


Lemma validate_changeId req id :
  validate req = [] → changeId req = Some id → truthy (changeId req) = Some id.
Proof.
  unfold validate. intros Hv Hid. rewrite Hid in *. simpl in *.
  unfold min1 in Hv at 1. by destruct (decide (id = "")).
Qed.

(** X4: [applyChange] keeps a [changeId] that the caller supplies: it is the
    [changeId] of the returned result and, in a real run, of the audit record
    appended by the call, which also stores the revert plan of the result. *)
Theorem applyChange_keeps_changeId (req : ChangeRequest) (opts : ApplyOptions)
    (w w' : World) (res : ChangeResult) (id : string) :
  changeId req = Some id →
  applyChange rt req opts w = (Ok res, w') →
  cr_changeId res = id
  ∧ (default false (ao_dryRun opts) = false →
     ∃ client rec,
       docs_at (audit_key client w) w' = docs_at (audit_key client w) w ++ [AuditDoc rec]
       ∧ ar_changeId rec = id
       ∧ ar_revertPlan rec = cr_revertPlan res).
Proof.
  intros Hid H.
  apply applyChange_inv in H as [(e & ? & _)|(cid & client & t0 & w0 & H)]; [done|].
  destruct H as (Hv & Hcid & _ & Hc & _ & _ & _ & _ & H).
  rewrite (validate_changeId req id Hv Hid) in Hcid. simpl in Hcid. subst cid.
  split.
  - by apply execute_shape in H as [? _].
  - intros Hdry. rewrite Hdry in H.
    destruct (execute_audits req id client
                (coll_key client (str_or (env_AUDIT_DB w) "admin") AUDIT_COLLECTION) t0 w0)
      as (res' & rec & w'' & E & Hd & _ & Hrid & _ & _ & _ & Hplan & _).
    rewrite E in H. injection H as <- <-.
    exists client, rec. unfold audit_key. split; [|done].
    rewrite Hd. unfold docs_at. by rewrite Hc.
Qed.


(** ** Further properties of the revert engine *)

Lemma head_newest_first_None rs : head (newest_first rs) = None → rs = [].
Proof.
  unfold newest_first. intros H.
  pose proof (merge_sort_Permutation newer_eq rs) as Hp.
  destruct (merge_sort newer_eq rs); [|done].
  by apply Permutation_nil in Hp.
Qed.

Lemma filter_none {A} (P : A → Prop) `{!∀ x, Decision (P x)} (l : list A) :
  (∀ x, x ∈ l → ¬ P x) → filter P l = [].
Proof.
  induction l as [|x l IH]; intros Hall; [done|].
  rewrite filter_cons. destruct (decide (P x)) as [HP|_].
  - exfalso. apply (Hall x); [left | done].
  - apply IH. intros y Hy. apply Hall. by right.
Qed.

(** X5: reverting a change that has no audit record for the URI answers
    [failed] with the not-found message, carries no [change], and changes no
    collection. *)
Theorem revert_unknown_change (cid : string) (ctx : RevertContext) (w : World) :
  allowed rt w (ctx_uri ctx) →
  faults w = [] →
  (∀ r, r ∈ audit_records (audit_key (client_for w (ctx_uri ctx)) w) w →
        ¬ (ar_changeId r = cid ∧ uri (ar_target r) = ctx_uri ctx)) →
  ∃ w',
    revertChange rt cid ctx w
    = (Ok (mkRevert cid failed "No audit entry was found for the requested changeId." None),
       w')
    ∧ colls w' = colls w.
Proof.
  intros Ha Hf Hnone.
  destruct (revertChange_quiet cid ctx w Ha Hf) as (w0 & Hc0 & _ & E).
  rewrite (filter_none _ _ Hnone) in E. exists w0. by split.
Qed.

Lemma dropIndex_quiet k n col i w :
  faults w = [] → colls w !! k = Some col → n ≠ "_id_" →
  find (named n) (indexes col) = Some i →
  dropIndex k n w
  = (Ok tt, set_colls (insert k (mkCollection (docs col)
                                   (filter (fun j => ix_name j ≠ n) (indexes col)))) w).
Proof.
  intros Hf Hc Hn Hfind. unfold dropIndex. rewrite driver_quiet by done.
  rewrite Hc. rewrite decide_False by done. by rewrite Hfind.
Qed.

Lemma dropIndex_quiet_missing k n col w :
  faults w = [] → colls w !! k = Some col → find (named n) (indexes col) = None →
  ∃ e, dropIndex k n w = (Throw e, w).
Proof.
  intros Hf Hc Hfind. unfold dropIndex. rewrite driver_quiet by done.
  rewrite Hc. destruct (decide (n = "_id_")); [by eexists|]. rewrite Hfind. by eexists.
Qed.

(** X6: with no driver fault, reverting a recorded [createIndex] whose index
    is present drops every index of the effective name, keeps the documents
    and marks the audit record [reverted]; when the collection has no index
    of that name (for instance after an earlier revert) the answer is
    [failed] with the wrapped cause and no collection changes. *)
Theorem revert_createIndex (cid : string) (ctx : RevertContext) (w : World)
    (rec : AuditRecord) (c : string) (s : Spec) (o : option IndexOptions)
    (col : Collection) :
  allowed rt w (ctx_uri ctx) →
  faults w = [] →
  let client := client_for w (ctx_uri ctx) in
  let audit := audit_key client w in
  let k := coll_key client (default (database (ar_target rec)) (truthy (ctx_database ctx))) c in
  head (newest_first
          (filter (fun r => ar_changeId r = cid ∧ uri (ar_target r) = ctx_uri ctx)
                  (audit_records audit w))) = Some rec →
  ar_operation rec = CreateIndex c s o →
  colls w !! k = Some col →
  (∀ i,
     indexName s o ≠ "_id_" →
     find (named (indexName s o)) (indexes col) = Some i →
     ∃ t w',
       revertChange rt cid ctx w
       = (Ok (mkRevert cid reverted "Index dropped successfully."
                       (Some (changeRecord rec))), w')
       ∧ indexes_at k w'
         = Some (filter (fun j => ix_name j ≠ indexName s o) (indexes col))
       ∧ docs_at audit w'
         = update_first (ar_id rec) (mark_reverted t "Index dropped successfully.")
                        (docs_at audit w)
       ∧ (k ≠ audit → docs_at k w' = docs col))
  ∧ (find (named (indexName s o)) (indexes col) = None →
     ∃ cause w',
       revertChange rt cid ctx w
       = (Ok (mkRevert cid failed ("Failed to drop index: " +:+ cause)
                       (Some (changeRecord rec))), w')
       ∧ colls w' = colls w).
Proof.
  intros Ha Hf client audit k Hhead Hop Hcol.
  destruct (revertChange_quiet cid ctx w Ha Hf) as (w0 & Hc0 & Hf0 & E).
  fold client audit in E. rewrite Hhead in E. rewrite E. clear E.
  unfold revert_record. rewrite Hop. fold k. rewrite <- Hc0 in Hcol.
  split.
  - intros i Hn Hfind. unfold try_catch.
    rewrite (bind_Ok _ _ _ _ _ (dropIndex_quiet k _ col i w0 Hf0 Hcol Hn Hfind)).
    unfold bind, Date_now, updateOne, modify, ret. simpl.
    eexists _, _. split; [reflexivity|]. unfold indexes_at, docs_at. simpl.
    destruct (decide (k = audit)) as [Heq|Hne].
    + rewrite <- Heq. rewrite !lookup_insert_eq. simpl.
      rewrite <- Hc0, Hcol. by repeat split.
    + rewrite (lookup_insert_ne _ k audit) by done. rewrite Hc0.
      destruct (colls w !! audit) as [ca|] eqn:Hca.
      * rewrite lookup_insert_eq, lookup_insert_ne, lookup_insert_eq by done.
        by repeat split.
      * rewrite lookup_insert_eq, lookup_insert_ne, Hca by done. by repeat split.
  - intros Hfind.
    destruct (dropIndex_quiet_missing k _ col w0 Hf0 Hcol Hfind) as (e & Hdrop).
    unfold try_catch. rewrite (bind_Throw _ _ _ _ _ Hdrop).
    by eexists _, _.
Qed.

(** X7: a driver error while the documents of a recorded [createCollection]
    are counted leaves [revert_record] by exception, whereas a driver error
    in the drop of a recorded [createIndex] is answered as a [failed]
    result; neither changes a collection. *)
Theorem revert_driver_error (client : MongoClient) (audit : CollKey) (cid : string)
    (ctx : RevertContext) (rec : AuditRecord) (e : JsError) (fs : list (option JsError))
    (w : World) :
  faults w = Some e :: fs →
  colls (snd (revert_record client audit cid ctx rec w)) = colls w
  ∧ (∀ c o, ar_operation rec = CreateCollection c o →
            fst (revert_record client audit cid ctx rec w) = Throw e)
  ∧ (∀ c s o, ar_operation rec = CreateIndex c s o →
              fst (revert_record client audit cid ctx rec w)
              = Ok (mkRevert cid failed ("Failed to drop index: " +:+ stringify_cause e)
                             (Some (changeRecord rec)))).
Proof.
  intros Hf. unfold revert_record.
  destruct (ar_operation rec) as [c o|c s o|ty].
  - unfold countDocuments, driver, bind. rewrite Hf. simpl.
    split; [done|]. split; [done|]. by intros.
  - unfold try_catch, dropIndex, driver, bind. rewrite Hf. simpl.
    split; [done|]. split; [by intros|]. by intros ? ? ? [= <- <- <-].
  - split; [done|]. split; by intros.
Qed.


(** ** Further properties of the connection manager *)

(** X8: once [getClient] has returned a handle for a URI, calling it again
    returns the same handle and leaves the world as it is: no second
    connection is opened.  The first call has connected at most once, and
    only when the URI was not cached. *)
Theorem getClient_reuses_handle (u : string) (c : MongoClient) (w w1 : World) :
  getClient rt u w = (Ok c, w1) →
  getClient rt u w1 = (Ok c, w1)
  ∧ (match clientCache w !! u with
     | Some c0 => c = c0 ∧ w1 = w
     | None => c = mkClient u ∧ trace w1 = trace w ++ [EvConnect u]
               ∧ clientCache w1 = <[u := c]> (clientCache w)
     end).
Proof.
  intros H. pose proof H as H'.
  apply getClient_inv in H' as (Ha & Hc & _ & Hal & _).
  split.
  - apply getClient_hit; [|done]. unfold allowed in *. by rewrite Hal.
  - unfold getClient in H. rewrite (bind_Ok _ _ _ _ _ (check_allow_Ok u w Ha)) in H.
    unfold cached_or_connect, bind, gets in H.
    destruct (clientCache w !! u) as [c0|] eqn:Hcache.
    + by injection H as <- <-.
    + unfold connect, log, modify, driver, bind, ret in H. simpl in H.
      destruct (faults w) as [|[e|] fs]; [|done|]; by injection H as <- <-.
Qed.

(** X9: a call of [getClient] that throws, whether at the allow-pattern or
    at the connection, caches nothing and changes no collection, so the next
    call for the URI starts afresh. *)
Theorem getClient_failure_not_cached (u : string) (e : JsError) (w w1 : World) :
  getClient rt u w = (Throw e, w1) →
  clientCache w1 = clientCache w ∧ colls w1 = colls w.
Proof.
  unfold getClient. intros H.
  apply bind_inv in H as [(? & w0 & Hchk & H)|(e' & Hchk & _)].
  - apply check_allow_inv in Hchk as [_ ->].
    unfold cached_or_connect, bind, gets in H.
    destruct (clientCache w !! u) as [c0|]; [done|].
    unfold connect, log, modify, driver, bind, ret in H. simpl in H.
    destruct (faults w) as [|[e0|] fs]; [done| |done]. by injection H as _ <-.
  - pose proof (check_allow_spec u w) as S.
    destruct (truthy _) as [p|]; [|congruence].
    destruct (RegExp_test rt p u) as [[|]|]; [congruence| |destruct S as [e0 S]];
      rewrite S in Hchk; by injection Hchk as _ <-.
Qed.

(** ** The audit store *)

Lemma newest_first_head_max rs r :
  head (newest_first rs) = Some r →
  r ∈ rs ∧ ∀ x, x ∈ rs → (ar_createdAt x ≤ ar_createdAt r)%Z.
Proof.
  intros H. split; [by apply head_newest_first_elem|].
  intros x Hx. unfold newest_first in H.
  pose proof (StronglySorted_merge_sort newer_eq rs) as Hs.
  rewrite <- (merge_sort_Permutation newer_eq rs) in Hx.
  destruct (merge_sort newer_eq rs) as [|y l]; [done|]. injection H as ->.
  apply StronglySorted_inv in Hs as [_ Hall].
  apply elem_of_cons in Hx as [->|Hx]; [done|].
  rewrite Forall_forall in Hall. by apply Hall.
Qed.

(** X10: [getChange] changes no collection and returns the newest audit
    record of the change for the URI: a record with that [changeId] and URI
    that no other such record is newer than, or nothing exactly when no
    record has that [changeId] and URI. *)
Theorem getChange_newest (cid u : string) (w w' : World) (found : option AuditRecord) :
  getChange rt cid u w = (Ok found, w') →
  ∃ client,
    clientCache w' !! u = Some client
    ∧ colls w' = colls w
    ∧ match found with
      | Some r =>
          r ∈ audit_records (audit_key client w) w
          ∧ ar_changeId r = cid ∧ uri (ar_target r) = u
          ∧ ∀ x, x ∈ audit_records (audit_key client w) w →
                 ar_changeId x = cid → uri (ar_target x) = u →
                 (ar_createdAt x ≤ ar_createdAt r)%Z
      | None =>
          ∀ x, x ∈ audit_records (audit_key client w) w →
               ¬ (ar_changeId x = cid ∧ uri (ar_target x) = u)
      end.
Proof.
  unfold getChange. intros H.
  apply bind_inv_Ok in H as (client & w0 & Hget & H).
  apply getClient_inv in Hget as (_ & Hcache & Hc & _ & Haud & _).
  apply bind_inv_Ok in H as (audit & w1 & Ha & H). injection Ha as <- <-.
  unfold find_latest, gets in H. injection H as <- <-.
  assert (audit_records (audit_key client w0) w0 = audit_records (audit_key client w) w) as ->.
  { unfold audit_key, audit_records, docs_at. by rewrite Haud, Hc. }
  exists client. split; [done|]. split; [done|].
  destruct (head _) as [r|] eqn:Hh.
  - apply newest_first_head_max in Hh as [Hin Hmax].
    apply list_elem_of_filter in Hin as [[? ?] Hin].
    repeat split; try done. intros x Hx Hxc Hxu. apply Hmax.
    apply list_elem_of_filter. by split.
  - apply head_newest_first_None in Hh. intros x Hx HP.
    by apply (filter_nil_not_elem_of _ _ x Hh).
Qed.


(** ** Further properties of the batch orchestrator *)

(** While the stop condition does not hold, the loop walks the requests as
    [attempts] does. *)
Lemma applyBatch_loop_walk stopOnError dryRun pre :
  ∀ rs w w1 i results done rest,
    attempts rt dryRun pre w = (Ok rs, w1) →
    Forall (fun r => cr_status r = failed → stopOnError = false ∨ dryRun = true) rs →
    ∃ done',
      applyBatch_loop rt stopOnError dryRun (pre ++ rest) i results done w
      = applyBatch_loop rt stopOnError dryRun rest (i + length pre) (results ++ rs) done' w1.
Proof.
  induction pre as [|c pre IH]; intros rs w w1 i results done rest Hatt Hall; simpl in *.
  - injection Hatt as <- <-. exists done. by rewrite Nat.add_0_r, app_nil_r.
  - apply bind_inv_Ok in Hatt as (r & wa & Hr & Hatt).
    apply bind_inv_Ok in Hatt as (rs' & wb & Hrs & Hatt). injection Hatt as <- <-.
    apply Forall_cons in Hall as [Hr_ok Hall].
    rewrite (bind_Ok _ _ _ _ _ Hr).
    assert (bool_decide (cr_status r = failed) && stopOnError && negb dryRun = false) as ->.
    { destruct (bool_decide (cr_status r = failed)) eqn:Hb; [|done].
      apply bool_decide_eq_true in Hb. destruct (Hr_ok Hb) as [-> | ->]; [done|].
      by rewrite andb_false_r. }
    destruct (IH rs' wa wb (S i) (results ++ [r])
                (if bool_decide (cr_status r = applied) && negb dryRun
                 then done ++ [mkApplied (cr_changeId r) (target c)] else done)
                rest Hrs Hall) as (done' & E).
    exists done'. rewrite E. f_equal; [lia | by rewrite <- app_assoc].
Qed.

(** X11: when [stopOnError] is off, or the run is simulated, or no result
    is [failed], [applyBatch] is the plain sequence of attempts: it returns
    [ok] with one result per request, in order, and ends in the world the
    attempts end in. *)
Theorem applyBatch_without_rollback (changes : list ChangeRequest) (opts : BatchOptions)
    (w w' : World) (rs : list ChangeResult) :
  attempts rt (default false (bo_dryRun opts)) changes w = (Ok rs, w') →
  Forall (fun r => cr_status r = failed →
                   bo_stopOnError opts = Some false ∨ default false (bo_dryRun opts) = true) rs →
  applyBatch rt changes opts w = (Ok (mkBatch ok None rs), w').
Proof.
  intros Hatt Hall. unfold applyBatch.
  destruct (applyBatch_loop_walk (negb (bool_decide (bo_stopOnError opts = Some false)))
              (default false (bo_dryRun opts)) changes rs w w' 0 [] [] [] Hatt)
    as (done' & E).
  - eapply Forall_impl; [exact Hall|]. intros r Hr Hf.
    destruct (Hr Hf) as [Hs|Hd]; [left | by right].
    by rewrite bool_decide_eq_true_2.
  - rewrite app_nil_r in E. by rewrite E.
Qed.

(** X12: an exception thrown by a request of the batch, from the validator
    or from [getClient], leaves [applyBatch] as that exception: no revert
    call is made, so the changes applied before it stay applied. *)
Theorem applyBatch_exception_aborts (pre post : list ChangeRequest) (ci : ChangeRequest)
    (opts : BatchOptions) (w w1 w2 : World) (rs : list ChangeResult) (e : JsError) :
  attempts rt (default false (bo_dryRun opts)) pre w = (Ok rs, w1) →
  Forall (fun r => cr_status r ≠ failed) rs →
  attempt rt (default false (bo_dryRun opts)) ci w1 = (Throw e, w2) →
  applyBatch rt (pre ++ ci :: post) opts w = (Throw e, w2)
  ∧ revert_calls w2 = revert_calls w.
Proof.
  intros Hatt Hall Hci. split.
  - unfold applyBatch.
    destruct (applyBatch_loop_walk (negb (bool_decide (bo_stopOnError opts = Some false)))
                (default false (bo_dryRun opts)) pre rs w w1 0 [] [] (ci :: post) Hatt)
      as (done' & E).
    + eapply Forall_impl; [exact Hall|]. by intros r Hr Hf.
    + rewrite E. simpl. by rewrite (bind_Throw _ _ _ _ _ Hci).
  - pose proof (keeps_revert_calls_attempts (default false (bo_dryRun opts)) pre w) as H1.
    pose proof (keeps_revert_calls_attempt (default false (bo_dryRun opts)) ci w1) as H2.
    rewrite Hatt in H1. rewrite Hci in H2. simpl in *. congruence.
Qed.

(** X13: the shape of every [BatchResult]: with [ok] there is no [failedAt]
    and one result per request; with [rolled_back] the results stop at the
    request that failed, [failedAt] is the index of the last result, that
    result is [failed] and no earlier one is. *)
Theorem applyBatch_result_shape (changes : list ChangeRequest) (opts : BatchOptions)
    (w w' : World) (r : BatchResult) :
  applyBatch rt changes opts w = (Ok r, w') →
  match br_status r with
  | ok => br_failedAt r = None ∧ length (br_results r) = length changes
  | rolled_back =>
      ∃ i res,
        br_failedAt r = Some i
        ∧ length (br_results r) = S i
        ∧ br_results r !! i = Some res
        ∧ cr_status res = failed
        ∧ ∀ j x, j < i → br_results r !! j = Some x → cr_status x ≠ failed
  end.
Proof.
  unfold applyBatch. intros H.
  apply applyBatch_loop_spec in H as (rs & Hres & Hcase). simpl in Hres.
  destruct Hcase as [(-> & Hat & Hlen & _)|(-> & _ & _ & pre & res & -> & Hf & Hat & Hall & _)].
  - by rewrite Hres.
  - exists (length pre), res. rewrite Hres. simpl in Hat.
    split; [done|]. split; [rewrite length_app; simpl; lia|].
    split; [by rewrite list_lookup_middle|]. split; [done|].
    intros j x Hj Hx. rewrite lookup_app_l in Hx by done.
    rewrite Forall_forall in Hall. apply Hall. by apply list_elem_of_lookup_2 in Hx.
Qed.


(** ** Further properties of the audit listing *)

(** What a returning call of [listChanges] computes. *)
Lemma listChanges_result u q w r w' :
  listChanges rt u q w = (Ok r, w') →
  ∃ client,
    clientCache w' !! u = Some client
    ∧ (∀ c0, clientCache w !! u = Some c0 → client = c0)
    ∧ colls w' = colls w
    ∧ env_AUDIT_DB w' = env_AUDIT_DB w
    ∧ (0 ≤ default 0 (q_skip q))%Z
    ∧ r = let all := List.filter
                       (matches (mkFilter u
                                   (match truthy (q_status q) with
                                    | Some s => status_in (status_list s)
                                    | None => status_ne "reverted"
                                    end)
                                   (truthy (q_since q) ≫= Date_parse rt)))
                       (audit_records (audit_key client w) w) in
          mkList (length all)
            (cursor_limit
               (Z.min (match q_limit q with
                       | Some n => if decide (n = 0)%Z then 100%Z else n
                       | None => 100%Z
                       end) 500)
               (drop (Z.to_nat (default 0%Z (q_skip q))) (newest_first all))).
Proof.
  unfold listChanges. intros H.
  apply bind_inv_Ok in H as (client & w0 & Hget & H).
  pose proof (getClient_reuses_handle u client w w0 Hget) as [_ Hfirst].
  apply getClient_inv in Hget as (_ & Hcache & Hc & _ & Haud & _).
  apply bind_inv_Ok in H as (audit & w1 & Ha & H). injection Ha as <- <-.
  apply bind_inv_Ok in H as (all & w1 & Hall & H). injection Hall as <- <-.
  apply bind_inv_Ok in H as (? & w1 & Hskip & H).
  destruct (decide (default 0 (q_skip q) < 0)%Z) as [|Hsk]; [done|].
  injection Hskip as _ <-. injection H as <- <-.
  exists client. split; [done|]. split.
  { intros c0 Hc0. rewrite Hc0 in Hfirst. by destruct Hfirst. }
  split; [done|]. split; [done|]. split; [lia|].
  assert (audit_records (audit_key client w0) w0 = audit_records (audit_key client w) w) as ->.
  { unfold audit_key, audit_records, docs_at. by rewrite Haud, Hc. }
  done.
Qed.

(** X14: consecutive pages tile the listing: on an unchanged audit store the
    page of [n] items from [k] followed by the page of [m] items from
    [k + n] is the page of [n + m] items from [k], as long as [n + m] stays
    within the cap of 500; the three calls report the same total. *)
Theorem listChanges_pages_tile (u : string) (q : ListQuery) (n m k : Z)
    (w w1 w2 w3 : World) (r1 r2 r3 : ListResult) :
  (0 < n)%Z → (0 < m)%Z → (n + m ≤ 500)%Z → (0 ≤ k)%Z →
  listChanges rt u (with_page q n k) w = (Ok r1, w1) →
  listChanges rt u (with_page q m (k + n)) w1 = (Ok r2, w2) →
  listChanges rt u (with_page q (n + m) k) w2 = (Ok r3, w3) →
  items r1 ++ items r2 = items r3
  ∧ total r1 = total r3 ∧ total r2 = total r3.
Proof.
  intros Hn Hm Hcap Hk H1 H2 H3.
  apply listChanges_result in H1 as (c1 & Hc1 & _ & Hcol1 & Ha1 & _ & ->).
  apply listChanges_result in H2 as (c2 & Hc2 & Hsame2 & Hcol2 & Ha2 & _ & ->).
  apply listChanges_result in H3 as (c3 & Hc3 & Hsame3 & _ & _ & _ & ->).
  rewrite (Hsame2 c1 Hc1) in *. rewrite (Hsame3 c1 Hc2) in *.
  assert (audit_records (audit_key c1 w1) w1 = audit_records (audit_key c1 w) w) as E1.
  { unfold audit_key, audit_records, docs_at. by rewrite Ha1, Hcol1. }
  assert (audit_records (audit_key c1 w2) w2 = audit_records (audit_key c1 w) w) as E2.
  { unfold audit_key, audit_records, docs_at. by rewrite Ha2, Hcol2, Ha1, Hcol1. }
  simpl. rewrite E1, E2.
  set (l := newest_first _).
  assert (∀ x, (0 < x)%Z → (x ≤ 500)%Z →
               Z.min (if decide (x = 0)%Z then 100%Z else x) 500 = x) as Hlim.
  { intros x ? ?. rewrite decide_False by lia. lia. }
  rewrite !Hlim by lia.
  unfold cursor_limit. split; [|done].
  repeat case_decide; try lia.
  replace (Z.to_nat (k + n)) with (Z.to_nat k + Z.to_nat n) by lia.
  replace (Z.to_nat (n + m)) with (Z.to_nat n + Z.to_nat m) by lia.
  rewrite <- drop_drop. apply take_take_drop.
Qed.

(** X15: the page size of [listChanges]: with [limit] absent or [0] the page
    has at most 100 items, with a positive [limit] at most that many; a
    [skip] at or beyond the total gives an empty page while [total] still
    counts every match; and a negative [skip] never returns a result. *)
Theorem listChanges_page_size (u : string) (q : ListQuery) (w : World) :
  (∀ r w', listChanges rt u q w = (Ok r, w') →
           (q_limit q = None ∨ q_limit q = Some 0%Z → length (items r) ≤ 100)
           ∧ (∀ n, q_limit q = Some n → (0 < n)%Z → length (items r) ≤ Z.to_nat n)
           ∧ (total r ≤ Z.to_nat (default 0%Z (q_skip q)) → items r = []))
  ∧ ((default 0 (q_skip q) < 0)%Z → ∃ e, fst (listChanges rt u q w) = Throw e).
Proof.
  split.
  - intros r w' H. apply listChanges_result in H as (c & _ & _ & _ & _ & Hsk & ->).
    simpl. set (all := List.filter _ _). set (l := drop _ _).
    split; [|split].
    + intros Hl. unfold cursor_limit.
      assert (Z.min (match q_limit q with
                     | Some n => if decide (n = 0)%Z then 100%Z else n
                     | None => 100%Z
                     end) 500 = 100%Z) as ->.
      { destruct Hl as [-> | ->]; [done|]. by rewrite decide_True. }
      simpl. rewrite length_take. lia.
    + intros n Hl Hn. rewrite Hl. rewrite decide_False by lia.
      unfold cursor_limit. rewrite decide_False by lia. rewrite decide_True by lia.
      rewrite length_take. lia.
    + intros Htot.
      assert (l = []) as ->.
      { unfold l. apply drop_ge. unfold newest_first.
        by rewrite (Permutation_length (merge_sort_Permutation newer_eq all)). }
      unfold cursor_limit. destruct (decide _); [done|]. destruct (decide _); apply take_nil.
  - intros Hneg. unfold listChanges.
    destruct (getClient rt u w) as [[c|e] w0] eqn:Hget.
    + rewrite (bind_Ok _ _ _ _ _ Hget). unfold auditCollection, bind, gets, throw.
      rewrite decide_True by done. by eexists.
    + rewrite (bind_Throw _ _ _ _ _ Hget). by eexists.
Qed.

Lemma rev_app_rev_app (s t v : string) :
  String.rev_app (String.rev_app s t) v = String.rev_app t (s +:+ v).
Proof.
  revert t v. induction s as [|a s IH]; intros t v; simpl; [done|].
  by rewrite IH.
Qed.

Lemma string_app_nil_r (s : string) : s +:+ "" = s.
Proof.
  induction s as [|a s IH]; [done|].
  change (String a (s +:+ "") = String a s). by rewrite IH.
Qed.

Lemma string_rev_involutive (s : string) : String.rev (String.rev s) = s.
Proof. unfold String.rev. rewrite rev_app_rev_app. simpl. apply string_app_nil_r. Qed.

Lemma split_comma_go_app cur x rest :
  comma_free x = true →
  split_comma_go cur (x +:+ rest) = split_comma_go (String.rev_app x cur) rest.
Proof.
  revert cur. induction x as [|a x IH]; intros cur Hx; simpl in *; [done|].
  apply andb_true_iff in Hx as [Ha Hx]. apply negb_true_iff, bool_decide_eq_false in Ha.
  rewrite decide_False by done. by apply IH.
Qed.

Lemma split_comma_join xs :
  xs ≠ [] → Forall (fun x => comma_free x = true) xs →
  split_comma (join "," xs) = xs.
Proof.
  unfold split_comma. induction xs as [|x xs IH]; intros Hne Hall; [done|].
  apply Forall_cons in Hall as [Hx Hall]. destruct xs as [|y xs].
  - simpl. rewrite <- (string_app_nil_r x) at 1.
    rewrite split_comma_go_app by done. simpl.
    change (String.rev_app x "") with (String.rev x). by rewrite string_rev_involutive.
  - change (join "," (x :: y :: xs)) with (x +:+ String ","%char (join "," (y :: xs))).
    rewrite split_comma_go_app by done. simpl.
    change (String.rev_app x "") with (String.rev x). rewrite string_rev_involutive.
    f_equal. by apply IH.
Qed.

(** X16: the status filter of [listChanges] reads back a comma-separated
    list: for names that are non-empty, already trimmed and free of commas,
    splitting their join on [","] gives the names again, in order. *)
Theorem status_list_join (xs : list string) :
  Forall (fun x => x ≠ "" ∧ trim x = x ∧ comma_free x = true) xs →
  status_list (join "," xs) = xs.
Proof.
  intros Hall. destruct xs as [|x xs]; [done|].
  unfold status_list. rewrite split_comma_join; [|done|].
  - assert (map trim (x :: xs) = x :: xs) as ->.
    { induction Hall as [|y ys [_ [Ht _]] _ IH]; simpl; [done|]. by rewrite Ht, IH. }
    induction Hall as [|y ys [Hy _] _ IH]; [done|].
    rewrite filter_cons. rewrite decide_True by done. by rewrite IH.
  - eapply Forall_impl; [exact Hall|]. by intros y (_ & _ & ?).
Qed.


(** ** The validator and the controller helper *)

(** X17: what the executor may rely on after validation of a [createIndex]
    request: URI, database and collection are non-empty, the spec has a
    field, given options carry a non-empty name which is then the effective
    index name, and every object-shaped value of a partial filter uses
    allowed operators only. *)
Theorem validated_createIndex (req : ChangeRequest) (c : string) (s : Spec)
    (o : option IndexOptions) :
  validate req = [] →
  operation req = CreateIndex c s o →
  uri (target req) ≠ "" ∧ database (target req) ≠ "" ∧ c ≠ "" ∧ s ≠ []
  ∧ (∀ opt, o = Some opt →
       (∃ n, name opt = Some n ∧ n ≠ "" ∧ indexName s o = n)
       ∧ ∀ pfe field keys k,
           partialFilterExpression opt = Some pfe →
           (field, PfeObject keys) ∈ pfe → k ∈ keys → k ∈ PartialFilterAllowedOps).
Proof.
  unfold validate. intros Hv Hop. rewrite Hop in Hv.
  apply app_eq_nil in Hv as [_ Hv]. apply app_eq_nil in Hv as [Hu Hv].
  apply app_eq_nil in Hv as [Hd Hv]. simpl in Hv.
  apply app_eq_nil in Hv as [Hc Hv]. apply app_eq_nil in Hv as [Hs Hv].
  apply app_eq_nil in Hv as [Ho Hp].
  unfold min1 in Hu, Hd, Hc.
  destruct (decide (uri (target req) = "")); [done|].
  destruct (decide (database (target req) = "")); [done|].
  destruct (decide (c = "")); [done|].
  destruct (decide (s = [])); [done|].
  repeat split; try done.
  - subst o. simpl in Ho. unfold validate_options, min1 in Ho.
    destruct (name opt) as [nm|] eqn:Hn; [|done].
    destruct (decide (nm = "")); [done|].
    exists nm. repeat split; try done.
    unfold indexName. simpl. rewrite Hn. simpl. by rewrite decide_False.
  - intros pfe field keys k Hpfe Hin Hk. subst o. simpl in Hp. rewrite Hpfe in Hp.
    destruct (pfe_isAllowed pfe) eqn:Hall; [|done].
    unfold pfe_isAllowed in Hall. rewrite forallb_forall in Hall.
    apply list_elem_of_In in Hin. specialize (Hall _ Hin). simpl in Hall.
    rewrite forallb_forall in Hall. apply list_elem_of_In in Hk.
    specialize (Hall _ Hk). by apply bool_decide_eq_true in Hall.
Qed.

(** X18: [coerceBoolean] either ignores its fallback or returns it: every
    value is decisive (the same answer for both fallbacks) or undecided (the
    answer is the fallback).  So the dry-run flag of [applyChangeController]
    is what the query value says when it is decisive and what the body value
    says otherwise, [false] when both are undecided. *)
Theorem coerceBoolean_fallback (v : JsValue) :
  ((∃ b, ∀ fallback, coerceBoolean v fallback = b)
   ∨ (∀ fallback, coerceBoolean v fallback = fallback))
  ∧ (∀ body b, (∀ fallback, coerceBoolean v fallback = b) → resolve_dryRun v body = b)
  ∧ (∀ body, (∀ fallback, coerceBoolean v fallback = fallback) →
             resolve_dryRun v body = coerceBoolean body false).
Proof.
  split; [|split; intros body; unfold resolve_dryRun; intros; auto].
  revert v. fix IH 1. intros [| |b|z| |s|l|[p|]|].
  - by right.
  - by right.
  - left. by exists b.
  - left. by exists (negb (bool_decide (z = 0%Z))).
  - left. by exists true.
  - simpl. unfold coerceString.
    destruct (decide (toLowerCase (trim s) = "")); [by right|].
    destruct (bool_decide (toLowerCase (trim s) ∈ TRUE_WORDS)); [left; by exists true|].
    destruct (bool_decide (toLowerCase (trim s) ∈ FALSE_WORDS)); [left; by exists false|].
    by right.
  - simpl. induction l as [|x l IHl]; [by right|].
    destruct l as [|y l]; [apply (IH x) | apply IHl].
  - simpl. apply (IH p).
  - by right.
  - by right.
Qed.

End Properties.

(** ** Instances on concrete inputs *)

Lemma createIndex_idempotent_witness :
  ∃ r2 w2,
    applyChange prefix_runtime index_request for_real indexed_world = (Ok r2, w2)
    ∧ cr_status r2 = skipped.
Proof.
  apply (proj2 (createIndex_idempotent prefix_runtime index_request "users"
                  [("email", 1%Z)] (Some email_options) for_real users_world
                  eq_refl eq_refl I eq_refl)
           (result_of first_run) indexed_world).
  - reflexivity.
  - vm_compute. reflexivity.
  - vm_compute. reflexivity.
Defined.



Lemma revert_createCollection_guard_witness :
  (∃ w',
     revertChange prefix_runtime "c0" revert_ctx populated_world
     = (Ok (mkRevert "c0" failed "Cannot drop the collection because it is not empty."
                     (Some (changeRecord created_record))), w')
     ∧ colls w' = colls populated_world)
  ∧ (∃ w',
       revertChange prefix_runtime "c0" revert_ctx created_world
       = (Ok (mkRevert "c0" reverted "Collection dropped successfully."
                       (Some (changeRecord created_record))), w')
       ∧ colls w' !! users_key = None).
Proof.
  split.
  - pose proof (revert_createCollection_guard prefix_runtime "c0" revert_ctx
                  populated_world created_record "users" None I eq_refl) as H.
    cbv zeta in H.
    apply (proj1 (H ltac:(vm_compute; reflexivity) ltac:(vm_compute; reflexivity))).
    vm_compute. discriminate.
  - pose proof (revert_createCollection_guard prefix_runtime "c0" revert_ctx
                  created_world created_record "users" None I eq_refl) as H.
    cbv zeta in H.
    destruct (proj2 (H ltac:(vm_compute; reflexivity) ltac:(vm_compute; reflexivity))
                newCollection ltac:(vm_compute; reflexivity) eq_refl)
      as (t & w' & E & Hk & _).
    exists w'. split; [exact E | exact Hk].
Defined.

Lemma indexName_in_spec_order_witness :
  ∃ col, colls (snd (perform (mkClient "mongodb://x") "D"
                       (CreateIndex "users" unsorted_spec None) false users_world))
           !! users_key = Some col
         ∧ mkIndex "idx_b_a" unsorted_spec ∈ indexes col.
Proof.
  apply (proj1 (proj2 (proj2 (indexName_in_spec_order unsorted_spec)))
           (mkClient "mongodb://x") "D" "users" users_world
           (mkOutcome applied "Change applied successfully."
              (Some (dropIndex_plan "users" "idx_b_a")))).
  - reflexivity.
  - vm_compute. reflexivity.
  - reflexivity.
Defined.

(** C6 as stated fails: for the spec [{b: 1, a: 1}] the code plans the index
    under [idx_b_a], the specification's sorted name is [idx_a_b]. *)
Lemma indexName_sorted_counterexample :
  ¬ (∀ (req : ChangeRequest) c s w res w',
       operation req = CreateIndex c s None →
       applyChange prefix_runtime req for_real w = (Ok res, w') →
       cr_status res = applied →
       cr_revertPlan res = Some (Some (dropIndex_plan c (sorted_indexName s)))).
Proof.
  intros H.
  specialize (H unnamed_request "users" unsorted_spec users_world
                (result_of (applyChange prefix_runtime unnamed_request for_real users_world))
                (snd (applyChange prefix_runtime unnamed_request for_real users_world))
                eq_refl).
  vm_compute in H. specialize (H eq_refl eq_refl). discriminate H.
Qed.

Lemma applyChange_result_fields_witness :
  cr_status (result_of first_run) = failed ↔ cr_revertPlan (result_of first_run) = None.
Proof.
  apply (applyChange_result_fields prefix_runtime index_request for_real users_world
           indexed_world (result_of first_run)).
  vm_compute. reflexivity.
Defined.

(** C9 as stated fails: the result of a request that clashes with an
    existing index is [failed] and has no [revertPlan] property. *)
Lemma failed_result_counterexample :
  ¬ (∀ req opts w res w',
       applyChange prefix_runtime req opts w = (Ok res, w') →
       ∃ plan, cr_revertPlan res = Some plan).
Proof.
  intros H.
  destruct (H clashing_request for_real indexed_world (result_of clash_run) (snd clash_run))
    as [plan Hplan].
  - vm_compute. reflexivity.
  - vm_compute in Hplan. discriminate Hplan.
Qed.

Lemma getClient_pattern_first_witness :
  getClient prefix_runtime "mongodb://x" guarded_world = (Throw NOT_ALLOWED, guarded_world)
  ∧ clientCache guarded_world !! "mongodb://x" = Some (mkClient "mongodb://x").
Proof.
  split.
  - apply (getClient_pattern_first prefix_runtime "mongodb://x" "mongodb://prod"
             guarded_world eq_refl).
    + discriminate.
    + reflexivity.
  - vm_compute. reflexivity.
Defined.


